(** * RD-03D radar web monitor: a model of [main.py] and its properties

    [main.py] is a MicroPython program.  A cooperative scheduler
    ([uasyncio]) interleaves two perpetual tasks: [sensor_task], which
    polls the radar driver and republishes the module-level list
    [last_targets], and [web_server], which runs [handle_client] once per
    accepted connection.

    The development is organised as follows.
    - [PyFloat]: the floating-point arithmetic the comprehension in
      [sensor_task] performs, over [spec_float], for any binary format.
    - [PyBytes]: the [in] operator on [bytes].
    - [PyJson]: [json.dumps] on the values the program serialises.
    - Section [Program]: the program itself.  Coroutines are trees of
      primitive operations ([Task]); a tree is run either alone, to
      completion ([run]), or one scheduling slice at a time ([advance]),
      which is what the transition relation of the whole system uses. *)

From Stdlib Require Import ZArith List Bool String Ascii Lia.
From Stdlib Require Import Strings.Byte.
From Stdlib Require Import Floats.SpecFloat.
Import ListNotations.

Local Open Scope string_scope.
Local Open Scope Z_scope.

(* ===================================================================== *)
(** ** Floating point *)
(* ===================================================================== *)

Module PyFloat.

(** A binary floating-point format: [prec] bits of mantissa (the implicit
    one included) and [emax], the exponent of the infinities. *)
Record format : Set := Format { prec : Z; emax : Z }.

(** The two formats MicroPython is built with: single precision on the
    microcontroller ports, double precision on the others. *)
Definition binary32 : format := Format 24 128.
Definition binary64 : format := Format 53 1024.

Section Ops.

Variable fmt : format.

(** [float(n)] for an [int] [n]. *)
Definition of_int (n : Z) : spec_float :=
  binary_normalize (prec fmt) (emax fmt) n 0 false.

(** [x / y] and [x * y] on floats.  (Python raises [ZeroDivisionError] on
    a zero divisor; the program only divides by the constants [1000] and
    [100.0].) *)
Definition truediv (x y : spec_float) : spec_float :=
  SFdiv (prec fmt) (emax fmt) x y.

Definition mul (x y : spec_float) : spec_float :=
  SFmul (prec fmt) (emax fmt) x y.

(** C's [nearbyint] in the default rounding mode: the nearest integer,
    ties to even, the sign of a zero result kept. *)
Definition nearbyint (x : spec_float) : spec_float :=
  match x with
  | S754_finite s m e =>
      if 0 <=? e then x
      else
        let mrs := fst (shr (shr_record_of_loc (Zpos m) loc_Exact) e (- e)) in
        let n := round_nearest_even (shr_m mrs) (loc_of_shr_record mrs) in
        binary_normalize (prec fmt) (emax fmt) (cond_Zopp s n) 0 s
  | _ => x
  end.

(** The builtin [round(x, ndigits)] on a float, as MicroPython computes
    it: [mult = pow(10, ndigits)], then [nearbyint(x * mult) / mult]. *)
Definition round (x : spec_float) (ndigits : Z) : spec_float :=
  let mult := of_int (10 ^ ndigits) in
  truediv (nearbyint (mul x mult)) mult.

(** The float a decimal literal denotes: [decimal m k] is the float
    nearest to [m / 10^k], so [decimal 1234 2] is the literal [12.34]. *)
Definition decimal (m : Z) (k : Z) : spec_float :=
  truediv (of_int m) (of_int (10 ^ k)).

End Ops.





End PyFloat.

(* ===================================================================== *)
(** ** Bytes *)
(* ===================================================================== *)

Module PyBytes.

Definition bytes : Set := list byte.

(** The bytes literal [b"..."]. *)
Definition b (s : string) : bytes := list_byte_of_string s.

(** [s.startswith(pat)]. *)
Fixpoint startswith (pat s : bytes) : bool :=
  match pat, s with
  | [], _ => true
  | _ :: _, [] => false
  | p :: pat', c :: s' => Byte.eqb p c && startswith pat' s'
  end.

(** [pat in s]: [pat] occurs in [s] as a contiguous run of bytes. *)
Fixpoint contains (pat s : bytes) : bool :=
  startswith pat s
  || match s with
     | [] => false
     | _ :: s' => contains pat s'
     end.

End PyBytes.

(* ===================================================================== *)
(** ** JSON *)
(* ===================================================================== *)

Module PyJson.

(** The values [main.py] passes to [json.dumps]: dicts with string keys,
    lists and floats. *)
#[local] Unset Elimination Schemes.
Inductive value : Type :=
| JFloat (x : spec_float)
| JList (items : list value)
| JDict (items : list (string * value)).
#[local] Set Elimination Schemes.

(** The double-quote character. *)
Definition dquote : string := String "034"%char EmptyString.

(** [sep.join(parts)]. *)
Fixpoint join (sep : string) (parts : list string) : string :=
  match parts with
  | [] => EmptyString
  | [p] => p
  | p :: rest => p ++ sep ++ join sep rest
  end.

Section Dumps.

(** How the runtime prints a float ([repr]). *)
Variable float_repr : spec_float -> string.

(** [json.dumps] with its default separators, [", "] and [": "].  Keys are
    written between double quotes as they are: the keys of the program
    hold no character that needs escaping. *)
Fixpoint dumps (v : value) : string :=
  match v with
  | JFloat x => float_repr x
  | JList items => "[" ++ join ", " (map dumps items) ++ "]"
  | JDict items =>
      "{"
      ++ join ", "
           (map (fun kv => dquote ++ fst kv ++ dquote ++ ": " ++ dumps (snd kv)) items)
      ++ "}"
  end.

End Dumps.

End PyJson.

(* ===================================================================== *)
(** ** Data *)
(* ===================================================================== *)

Import PyFloat PyBytes.

(** One slot of [radar.targets], as the driver delivers it: [distance] in
    millimetres (0 when the slot holds no target), [angle] in degrees,
    [speed] in hundredths of the displayed unit. *)
Module Target.
Record t : Set := Make { distance : Z; angle : spec_float; speed : Z }.
End Target.

(** An entry of [last_targets]: the dict
    [{"range": ..., "angle": ..., "speed": ...}], its keys in that order. *)
Module DisplayTarget.
Record t : Set := Make { range : spec_float; angle : spec_float; speed : spec_float }.

Definition to_json (d : t) : PyJson.value :=
  PyJson.JDict [("range", PyJson.JFloat (range d));
                ("angle", PyJson.JFloat (angle d));
                ("speed", PyJson.JFloat (speed d))].
End DisplayTarget.

(** The exceptions a coroutine can see.  [OSError] is what a socket
    operation raises; the other two derive from [BaseException] only, so
    [except Exception] lets them through. *)
Inductive exn : Set :=
| OSError (errno : Z)
| CancelledError
| KeyboardInterrupt.

Definition is_Exception (e : exn) : bool :=
  match e with
  | OSError _ => true
  | CancelledError | KeyboardInterrupt => false
  end.

(** A socket, seen from the program: [rx] is what the peer has sent and the
    program has not read yet, [tx] what the program has written so far, in
    order; [rfault] and [wfault] are the error, if any, with which a read
    or a write on it fails. *)
Record Conn : Set := mkConn {
  rx : bytes;
  rfault : option Z;
  wfault : option Z;
  tx : list string;
  closed : bool
}.

(** Streams are objects; the program holds references to them. *)
Definition handle : Set := nat.

(** [[f(x) for x in xs if cond(x)]]: the result list is built by appending,
    slot after slot. *)
Definition list_comp {A B : Type} (f : A -> B) (cond : A -> bool) (xs : list A) : list B :=
  fold_left (fun acc x => if cond x then (acc ++ [f x])%list else acc) xs [].

Definition CRLF : string := String "013"%char (String "010"%char EmptyString).

(** [GET /data] and [GET /calibrate], the two patterns [handle_client]
    looks for. *)
Definition GET_data : bytes := b "GET /data".
Definition GET_calibrate : bytes := b "GET /calibrate".

(** The dict the comprehension of [sensor_task] builds from the slot [t],
    in the float format [f]:
    [{"range": round(t.distance / 1000, 2), "angle": round(t.angle, 1),
      "speed": round(t.speed / 100.0, 2)}]. *)
Definition to_display (f : format) (t : Target.t) : DisplayTarget.t :=
  DisplayTarget.Make
    (round f (truediv f (of_int f (Target.distance t)) (of_int f 1000)) 2)
    (round f (Target.angle t) 1)
    (round f (truediv f (of_int f (Target.speed t)) (of_int f 100)) 2).

(** The test of the comprehension: [t.distance > 0]. *)
Definition has_target (t : Target.t) : bool := 0 <? Target.distance t.

(** The radar object.  [targets] is the attribute the program reads and
    assigns; [dev] stands for whatever else the driver keeps (the UART and
    its buffers). *)
Record RD03D (Dev : Type) : Type := mkRadar { targets : list Target.t; dev : Dev }.

Arguments mkRadar {Dev}.
Arguments targets {Dev}.
Arguments dev {Dev}.

(** What [main.py] is linked against and never looks into.
    - [fmt], [float_repr] and [str]: the float format of the interpreter,
      its [repr] of a float and its [str] of an exception.
    - [HTML]: the page served by default, the module constant [HTML]; the
      program passes it through as it is.
    - [Dev] and [update]: the driver.  [update] is [radar.update()]: it
      returns whether a new frame was decoded, and the object as the call
      leaves it.  (A call that raises is the driver's business: nothing in
      [sensor_task] catches it.) *)
Class Externals : Type := {
  fmt : format;
  float_repr : spec_float -> string;
  str : exn -> string;
  HTML : string;
  Dev : Type;
  update : RD03D Dev -> bool * RD03D Dev
}.

(* ===================================================================== *)
(** ** The program *)
(* ===================================================================== *)

Section Program.

Context `{E : Externals}.

(** What the coroutines share: the module globals [radar] and
    [last_targets], and the sockets behind the stream objects. *)
Record World : Type := mkWorld {
  radar : RD03D Dev;
  last_targets : list DisplayTarget.t;
  sockets : handle -> Conn
}.

Definition set_radar (r : RD03D Dev) (w : World) : World :=
  mkWorld r (last_targets w) (sockets w).

Definition set_last_targets (v : list DisplayTarget.t) (w : World) : World :=
  mkWorld (radar w) v (sockets w).

Definition set_socket (h : handle) (c : Conn) (w : World) : World :=
  mkWorld (radar w) (last_targets w)
          (fun h' => if Nat.eqb h' h then c else sockets w h').

(** *** Coroutines *)

(** The primitive operations of the program, indexed by the type of what
    they return. *)
Inductive op : Type -> Type :=
| Print (line : string) : op unit
| RadarUpdate : op bool
| RadarTargets : op (list Target.t)
| RadarSetTargets (ts : list Target.t) : op unit
| LoadLastTargets : op (list DisplayTarget.t)
| StoreLastTargets (v : list DisplayTarget.t) : op unit
| Sleep (ms : Z) : op unit
| StreamRead (h : handle) (n : nat) : op (exn + bytes)
| StreamWrite (h : handle) (data : string) : op (exn + unit)
| StreamClose (h : handle) : op unit.

(** A coroutine: it returns, raises, or performs an operation and goes on
    with its result. *)
Inductive Task (A : Type) : Type :=
| Ret (a : A)
| Raise (e : exn)
| Vis {X : Type} (o : op X) (k : X -> Task A).

Arguments Ret {A} a.
Arguments Raise {A} e.
Arguments Vis {A X} o k.

Fixpoint bind {A B : Type} (t : Task A) (f : A -> Task B) : Task B :=
  match t with
  | Ret a => f a
  | Raise e => Raise e
  | Vis o k => Vis o (fun x => bind (k x) f)
  end.

Notation "x <- t1 ;; t2" := (bind t1 (fun x => t2))
  (at level 61, t1 at next level, right associativity).
Notation "t1 ;; t2" := (bind t1 (fun _ => t2))
  (at level 61, right associativity).

(** [try: t  except Exception as e: h(e)]. *)
Fixpoint try_except {A : Type} (t : Task A) (h : exn -> Task A) : Task A :=
  match t with
  | Ret a => Ret a
  | Raise e => if is_Exception e then h e else Raise e
  | Vis o k => Vis o (fun x => try_except (k x) h)
  end.

(** [try: t  finally: f].  [f] runs whichever way [t] ends; an exception
    of [t] is raised again after it. *)
Fixpoint try_finally {A : Type} (t : Task A) (f : Task unit) : Task A :=
  match t with
  | Ret a => f ;; Ret a
  | Raise e => f ;; Raise e
  | Vis o k => Vis o (fun x => try_finally (k x) f)
  end.

Definition print (line : string) : Task unit := Vis (Print line) Ret.
Definition radar_update : Task bool := Vis RadarUpdate Ret.
Definition radar_targets : Task (list Target.t) := Vis RadarTargets Ret.
Definition radar_set_targets (ts : list Target.t) : Task unit :=
  Vis (RadarSetTargets ts) Ret.
Definition load_last_targets : Task (list DisplayTarget.t) := Vis LoadLastTargets Ret.
Definition store_last_targets (v : list DisplayTarget.t) : Task unit :=
  Vis (StoreLastTargets v) Ret.

(** [await asyncio.sleep(...)], the delay in milliseconds. *)
Definition sleep (ms : Z) : Task unit := Vis (Sleep ms) Ret.

(** [await reader.read(n)], [await writer.awrite(data)] and
    [await writer.aclose()].  A read or a write raises the [OSError] of
    the socket, if it has one; closing does not fail. *)
Definition read (reader : handle) (n : nat) : Task bytes :=
  Vis (StreamRead reader n)
      (fun r => match r with inl e => Raise e | inr data => Ret data end).

Definition awrite (writer : handle) (data : string) : Task unit :=
  Vis (StreamWrite writer data)
      (fun r => match r with inl e => Raise e | inr _ => Ret tt end).

Definition aclose (writer : handle) : Task unit := Vis (StreamClose writer) Ret.

(** *** [main.py] *)

(** The body of the [while True] loop of [sensor_task]. *)
Definition sensor_task_iteration : Task unit :=
  fresh <- radar_update ;;
  (if fresh : bool then
     ts <- radar_targets ;;
     store_last_targets (list_comp (to_display fmt) has_target ts)
   else Ret tt) ;;
  sleep 100.

Definition calibrate : Task unit :=
  print "Calibration started..." ;;
  radar_set_targets [] ;;
  sleep 200 ;;
  print "Calibration complete.".

Definition status_line : string := "HTTP/1.0 200 OK".

Definition json_response (snapshot : list DisplayTarget.t) : string :=
  status_line ++ CRLF ++ "Content-Type: application/json" ++ CRLF ++ CRLF
  ++ PyJson.dumps float_repr
       (PyJson.JDict [("targets", PyJson.JList (map DisplayTarget.to_json snapshot))]).

Definition calibrated_response : string :=
  status_line ++ CRLF ++ "Content-Type: text/plain" ++ CRLF ++ CRLF ++ "Calibrated.".

Definition html_response : string :=
  status_line ++ CRLF ++ "Content-Type: text/html" ++ CRLF ++ CRLF ++ HTML.

(** The [if]/[elif]/[else] of [handle_client]: it yields [response]. *)
Definition route (request : bytes) : Task string :=
  if contains GET_data request then
    snapshot <- load_last_targets ;;
    Ret (json_response snapshot)
  else if contains GET_calibrate request then
    calibrate ;;
    Ret calibrated_response
  else
    Ret html_response.

(** [handle_client(reader, writer)].  ([web_server] passes it the one
    stream of the connection as [reader] and as [writer].) *)
Definition handle_client (reader writer : handle) : Task unit :=
  try_finally
    (try_except
       (request <- read reader 1024 ;;
        response <- route request ;;
        awrite writer response)
       (fun e => print ("Client error: " ++ str e)))
    (aclose writer).

(** *** Running coroutines *)

(** The effect of one operation on the shared state, and its result. *)
Definition perform {X : Type} (o : op X) (w : World) : X * World :=
  match o in op X return X * World with
  | Print _ => (tt, w)
  | RadarUpdate => let (fresh, r) := update (radar w) in (fresh, set_radar r w)
  | RadarTargets => (targets (radar w), w)
  | RadarSetTargets ts => (tt, set_radar (mkRadar ts (dev (radar w))) w)
  | LoadLastTargets => (last_targets w, w)
  | StoreLastTargets v => (tt, set_last_targets v w)
  | Sleep _ => (tt, w)
  | StreamRead h n =>
      let c := sockets w h in
      match rfault c with
      | Some errno => (inl (OSError errno), w)
      | None =>
          (inr (firstn n (rx c)),
           set_socket h (mkConn (skipn n (rx c)) (rfault c) (wfault c) (tx c) (closed c)) w)
      end
  | StreamWrite h data =>
      let c := sockets w h in
      match wfault c with
      | Some errno => (inl (OSError errno), w)
      | None =>
          (inr tt,
           set_socket h (mkConn (rx c) (rfault c) (wfault c) (tx c ++ [data])%list (closed c)) w)
      end
  | StreamClose h =>
      let c := sockets w h in
      (tt, set_socket h (mkConn (rx c) (rfault c) (wfault c) (tx c) true) w)
  end.

(** The operations at which a coroutine hands control back to the
    scheduler: the ones behind an [await]. *)
Definition suspends {X : Type} (o : op X) : bool :=
  match o with
  | Sleep _ | StreamRead _ _ | StreamWrite _ _ | StreamClose _ => true
  | _ => false
  end.

(** An operation that was performed, with what it returned. *)
Inductive event : Type :=
| Event {X : Type} (o : op X) (x : X).

Record Outcome (A : Type) : Type := mkOutcome {
  result : exn + A;
  final : World;
  trace : list event
}.

Arguments mkOutcome {A}.
Arguments result {A}.
Arguments final {A}.
Arguments trace {A}.

(** A coroutine run to its end with no other coroutine scheduled in
    between. *)
Fixpoint run {A : Type} (t : Task A) (w : World) : Outcome A :=
  match t with
  | Ret a => mkOutcome (inr a) w []
  | Raise e => mkOutcome (inl e) w []
  | Vis o k =>
      let (x, w') := perform o w in
      let r := run (k x) w' in
      mkOutcome (result r) (final r) (Event o x :: trace r)
  end.

(** A coroutine run up to, and not including, its next [await]. *)
Fixpoint atomic {A : Type} (t : Task A) (w : World) : Task A * World :=
  match t with
  | Vis o k =>
      if suspends o then (t, w)
      else let (x, w') := perform o w in atomic (k x) w'
  | _ => (t, w)
  end.

(** One scheduling slice of a coroutine: the operation it is waiting on,
    if any, completes, and it runs on to its next [await]. *)
Definition advance {A : Type} (t : Task A) (w : World) : Task A * World :=
  match t with
  | Vis o k => let (x, w') := perform o w in atomic (k x) w'
  | _ => (t, w)
  end.

(** What a trace shows: the lines printed, the number of times
    [radar.targets] was assigned the empty list ... *)
Definition printed_line (e : event) : list string :=
  match e with
  | Event (Print line) _ => [line]
  | Event _ _ => []
  end.

Definition printed (tr : list event) : list string := flat_map printed_line tr.

Definition is_reset (e : event) : bool :=
  match e with
  | Event (RadarSetTargets []) _ => true
  | Event _ _ => false
  end.

Definition resets (tr : list event) : nat := List.length (filter is_reset tr).

(** ... and the number of times [last_targets] was assigned. *)
Definition is_publish (e : event) : bool :=
  match e with
  | Event (StoreLastTargets _) _ => true
  | Event _ _ => false
  end.

Definition publishes (tr : list event) : nat := List.length (filter is_publish tr).

(** *** The scheduler *)

(** [main] starts [sensor_task] and [web_server] and then only sleeps.
    [sensor_task] is always at its sleep when it does not run, so the
    system is the shared state and the [handle_client] coroutines started
    so far, the [i]-th one on the stream with handle [i]. *)
Record System : Type := mkSystem {
  globals : World;
  clients : list (Task unit)
}.

Inductive label : Type :=
| Poll
| Accept (c : Conn)
| Client (i : nat).

Fixpoint replace {A : Type} (i : nat) (x : A) (l : list A) : list A :=
  match l, i with
  | [], _ => []
  | _ :: l', O => x :: l'
  | y :: l', S i' => y :: replace i' x l'
  end.

(** One slice of the scheduler.
    - [Poll]: [sensor_task] wakes from its sleep and runs one iteration of
      its loop, up to the next sleep.
    - [Accept c]: a connection arrives, its socket in state [c];
      [web_server] starts a [handle_client] on it.
    - [Client i]: the [i]-th [handle_client] runs one slice. *)
Inductive step : label -> System -> System -> Prop :=
| step_poll s :
    step Poll s (mkSystem (snd (atomic sensor_task_iteration (globals s))) (clients s))
| step_accept s c :
    let h := List.length (clients s) in
    step (Accept c) s
         (mkSystem (set_socket h c (globals s)) (clients s ++ [handle_client h h])%list)
| step_client s i t :
    nth_error (clients s) i = Some t ->
    step (Client i) s
         (mkSystem (snd (advance t (globals s)))
                   (replace i (fst (advance t (globals s))) (clients s))).

(** The program as [main] starts it: [last_targets = []], no connection. *)
Definition boot (r : RD03D Dev) (socks : handle -> Conn) : System :=
  mkSystem (mkWorld r [] socks) [].

(** A run of the scheduler, with the labels of its slices. *)
Inductive steps : list label -> System -> System -> Prop :=
| steps_nil s : steps [] s s
| steps_cons l ls s1 s2 s3 : step l s1 s2 -> steps ls s2 s3 -> steps (l :: ls) s1 s3.

(** The data a coroutine is waiting to write, when it is suspended in
    [awrite]. *)
Definition pending_write {A : Type} (t : Task A) : option string :=
  match t with
  | Vis (StreamWrite _ data) _ => Some data
  | _ => None
  end.

(** The states the program can be in. *)
Definition reachable (s : System) : Prop :=
  exists r socks ls, steps ls (boot r socks) s.

(** A run of the scheduler in which no poll finds a new frame. *)
Inductive idle_steps : System -> System -> Prop :=
| idle_nil s : idle_steps s s
| idle_cons l s1 s2 s3 :
    step l s1 s2 ->
    (l = Poll -> fst (update (radar (globals s1))) = false) ->
    idle_steps s2 s3 ->
    idle_steps s1 s3.

(** A coroutine that never assigns [last_targets]. *)
Fixpoint store_free {A : Type} (t : Task A) : Prop :=
  match t with
  | Vis o k =>
      match o with StoreLastTargets _ => False | _ => True end
      /\ forall x, store_free (k x)
  | _ => True
  end.

(** The stream operations of a trace: reads, writes (attempted) and
    closes. *)
Definition is_read (e : event) : bool :=
  match e with
  | Event (StreamRead _ _) _ => true
  | Event _ _ => false
  end.

Definition is_write (e : event) : bool :=
  match e with
  | Event (StreamWrite _ _) _ => true
  | Event _ _ => false
  end.

Definition is_close (e : event) : bool :=
  match e with
  | Event (StreamClose _) _ => true
  | Event _ _ => false
  end.

Definition count (p : event -> bool) (tr : list event) : nat :=
  List.length (filter p tr).

(** A coroutine all of whose operations, along every path, satisfy [P]. *)
Fixpoint all_ops {A : Type} (P : forall X : Type, op X -> Prop) (t : Task A) : Prop :=
  match t with
  | Vis o k => P _ o /\ forall x, all_ops P (k x)
  | _ => True
  end.

(** The operations of a [handle_client] on the stream [h]: no
    [radar.update()], no assignment to [last_targets], no assignment to
    [radar.targets] other than of the empty list, and no operation on a
    stream other than [h]. *)
Definition client_op (h : handle) (X : Type) (o : op X) : Prop :=
  match o with
  | RadarUpdate => False
  | StoreLastTargets _ => False
  | RadarSetTargets ts => ts = []
  | StreamRead h' _ => h' = h
  | StreamWrite h' _ => h' = h
  | StreamClose h' => h' = h
  | _ => True
  end.

(** What such operations can do to the shared state: the internals of the
    driver, [last_targets] and the sockets other than [h] stay, and
    [radar.targets] stays or becomes empty. *)
Definition client_effect (h : handle) (w w' : World) : Prop :=
  dev (radar w') = dev (radar w)
  /\ last_targets w' = last_targets w
  /\ (targets (radar w') = targets (radar w) \/ targets (radar w') = [])
  /\ forall h', h' <> h -> sockets w' h' = sockets w h'.

(** Every coroutine the scheduler holds keeps to the operations of a
    [handle_client] on its own stream. *)
Definition clients_keep_to_themselves (s : System) : Prop :=
  forall i t, nth_error (clients s) i = Some t -> all_ops (client_op i) t.

(** The first [n] iterations of the [while True] loop of [sensor_task]. *)
Fixpoint sensor_task (n : nat) : Task unit :=
  match n with
  | O => Ret tt
  | S n' => sensor_task_iteration ;; sensor_task n'
  end.

(** The shared state after [n] polls with nothing else scheduled. *)
Definition polls (n : nat) (w : World) : World := final (run (sensor_task n) w).

End Program.

Arguments Ret {A} a.
Arguments Raise {A} e.
Arguments Vis {A X} o k.
Arguments mkOutcome {E A}.
Arguments result {E A}.
Arguments final {E A}.
Arguments trace {E A}.

(* ===================================================================== *)
(** ** A driver to run the program against *)
(* ===================================================================== *)

(** A driver fed from a script: each call of [feed] consumes one entry,
    [Some ts] for a frame with the slots [ts], [None] for no new frame. *)
Module Scripted.

Definition Script : Type := list (option (list Target.t)).

Definition feed (r : RD03D Script) : bool * RD03D Script :=
  match dev r with
  | [] => (false, r)
  | None :: rest => (false, mkRadar (targets r) rest)
  | Some ts :: rest => (true, mkRadar ts rest)
  end.

(** A [repr] that shows whether a float is zero, finite or neither, and a
    [str] that shows the class of the exception. *)
Definition show_float (x : spec_float) : string :=
  match x with
  | S754_zero _ => "0.0"
  | S754_finite _ _ _ => "x"
  | _ => "nan"
  end.

Definition show_exn (e : exn) : string :=
  match e with
  | OSError _ => "OSError"
  | CancelledError => "CancelledError"
  | KeyboardInterrupt => "KeyboardInterrupt"
  end.

Definition externals (f : format) : Externals :=
  {| fmt := f;
     float_repr := show_float;
     str := show_exn;
     HTML := "<!DOCTYPE html>";
     Dev := Script;
     update := feed |}.

(** A socket on which the peer sent [request] and nothing fails, and one
    on which reading fails with [ECONNRESET] (104). *)
Definition peer (request : string) : Conn := mkConn (b request) None None [] false.

Definition broken_peer : Conn := mkConn [] (Some 104) None [] false.

(** The state of the program with the snapshot [snapshot], a driver that
    tracks [ts] and has the frames [script] to come, and [c] behind every
    stream. *)
Definition world (f : format) (ts : list Target.t) (script : Script)
    (snapshot : list DisplayTarget.t) (c : Conn) : World (E := externals f) :=
  mkWorld (E := externals f) (mkRadar ts script) snapshot (fun _ => c).

(** The slot with distance 4000, angle 12.34 and speed 250, and a slot
    that holds no target. *)
Definition slot_4m (f : format) : Target.t := Target.Make 4000 (decimal f 1234 2) 250.
Definition slot_empty : Target.t := Target.Make 0 (S754_zero false) 0.

(** The program in single precision, which the examples below run. *)
Definition E32 : Externals := externals binary32.

(** States of the program: just started, with one frame and then none to
    come from the driver; after the poll that finds that frame; and after
    one more poll, which finds none. *)
Definition started (c : Conn) : System (E := E32) :=
  boot (E := E32) (mkRadar [] [Some [slot_empty; slot_4m binary32]; None]) (fun _ => c).

Definition polled (c : Conn) : System (E := E32) :=
  mkSystem (E := E32)
    (snd (atomic (E := E32) (sensor_task_iteration (E := E32)) (globals (started c))))
    (clients (started c)).

Definition polled_again (c : Conn) : System (E := E32) :=
  mkSystem (E := E32)
    (snd (atomic (E := E32) (sensor_task_iteration (E := E32)) (globals (polled c))))
    (clients (polled c)).


(** A request that is no [GET] of either path and mentions [GET /data] in
    a header. *)
Definition post_with_header : string :=
  "POST /log HTTP/1.0" ++ CRLF ++ "X-Note: GET /data" ++ CRLF ++ CRLF.

End Scripted.

(* ===================================================================== *)
(** ** Start-up *)
(* ===================================================================== *)

Module WiFi.

(** The loop [while not wlan.isconnected(): time.sleep(0.5)] that the
    module runs before anything else.  [isconnected k] is the answer of
    the call number [k] of [wlan.isconnected()].  [wait isconnected calls
    fuel] runs the loop after [calls] calls have answered [False]: it is
    the number of calls that have answered [False] when the loop ends,
    and [None] when the loop is still running after [fuel] more calls. *)
Fixpoint wait (isconnected : nat -> bool) (calls fuel : nat) : option nat :=
  match fuel with
  | O => None
  | S fuel' =>
      if isconnected calls then Some calls
      else wait isconnected (S calls) fuel'
  end.

End WiFi.

(* ===================================================================== *)
(** ** The script of the page *)
(* ===================================================================== *)

(** The functions of the script in [HTML] that compute without the canvas:
    [fetchData] and the choice of the colour of a target. *)
Module Page.

(** The values of the script: what [res.json()] can yield, and
    [undefined]. *)
#[local] Unset Elimination Schemes.
Inductive value : Type :=
| Undefined
| Null
| Bool (v : bool)
| Num (x : spec_float)
| Str (s : string)
| Arr (items : list value)
| Obj (fields : list (string * value)).
#[local] Set Elimination Schemes.

(** [Array.isArray(v)]. *)
Definition isArray (v : value) : bool :=
  match v with
  | Arr _ => true
  | _ => false
  end.

(** Whether [v] counts as true in a condition. *)
Definition truthy (v : value) : bool :=
  match v with
  | Undefined | Null => false
  | Bool v => v
  | Num (S754_zero _) | Num S754_nan => false
  | Num _ => true
  | Str s => negb (String.eqb s EmptyString)
  | Arr _ | Obj _ => true
  end.

(** The field [key] of an object read from JSON: the last one of that
    name, [undefined] when there is none. *)
Definition field (key : string) (fields : list (string * value)) : value :=
  fold_left (fun found kv => if String.eqb (fst kv) key then snd kv else found)
            fields Undefined.

(** [v.key], for a [key] that no builtin object defines ([targets] and
    [target] are the two the script reads): a [TypeError] on [undefined]
    and [null], the field on an object, [undefined] on anything else. *)
Inductive error : Set :=
| TypeError
| FetchFailed.

Definition member (key : string) (v : value) : error + value :=
  match v with
  | Undefined | Null => inl TypeError
  | Obj fields => inr (field key fields)
  | _ => inr Undefined
  end.

(** The state of the script that [fetchData] touches: the variable
    [targets], the errors written to the console, and the delays of the
    timers set. *)
Record state : Type := mkState {
  targets : value;
  errors : list error;
  timers : list Z
}.

(** [fetchData()].  [reply] is what [await fetch('/data')] followed by
    [await res.json()] yields: the value read, or the error when either
    fails. *)
Definition fetchData (reply : error + value) (st : state) : state :=
  let attempt : error + value :=
    match reply with
    | inl e => inl e
    | inr data =>
        match member "targets" data with
        | inl e => inl e
        | inr ts =>
            if isArray ts then inr ts
            else
              match member "target" data with
              | inl e => inl e
              | inr t => if truthy t then inr (Arr [t]) else inr (Arr [])
              end
        end
    end in
  match attempt with
  | inr ts => mkState ts (errors st) (timers st ++ [100])%list
  | inl e => mkState (Arr []) (errors st ++ [e])%list (timers st ++ [100])%list
  end.


(** [colors], and [colors[i % colors.length]]. *)
Definition colors : list string := ["#FF0000"; "#0080FF"; "#B400FF"].

Definition color (i : nat) : option string :=
  nth_error colors (i mod List.length colors).

(** [s.substr(start, len)]. *)
Definition substr (start len : nat) (s : string) : string := substring start len s.

(** The value of a hexadecimal digit. *)
Definition hex_digit (c : ascii) : option Z :=
  let n := Z.of_nat (nat_of_ascii c) in
  if (48 <=? n) && (n <=? 57) then Some (n - 48)
  else if (65 <=? n) && (n <=? 70) then Some (n - 55)
  else if (97 <=? n) && (n <=? 102) then Some (n - 87)
  else None.

(** The number the longest run of hexadecimal digits at the start of [s]
    denotes, after the digits [acc]; [None] when there is no digit. *)
Fixpoint hex_digits (s : string) (acc : option Z) : option Z :=
  match s with
  | EmptyString => acc
  | String c s' =>
      match hex_digit c with
      | Some d =>
          hex_digits s' (Some (16 * match acc with Some a => a | None => 0 end + d))
      | None => acc
      end
  end.

Definition is_space (c : ascii) : bool :=
  let n := nat_of_ascii c in
  (n =? 32)%nat || (n =? 9)%nat || (n =? 10)%nat || (n =? 11)%nat
  || (n =? 12)%nat || (n =? 13)%nat.

Fixpoint skip_spaces (s : string) : string :=
  match s with
  | String c s' => if is_space c then skip_spaces s' else s
  | EmptyString => s
  end.

(** [parseInt(s, 16)], [None] for [NaN]: leading white space, a sign and
    the prefix [0x] are skipped, the digits that follow are read.  (Of
    the white space of the language, the characters of ASCII.) *)
Definition parseInt16 (s : string) : option Z :=
  let s := skip_spaces s in
  let (negative, s) :=
    match s with
    | String "-" s' => (true, s')
    | String "+" s' => (false, s')
    | _ => (false, s)
    end in
  let s :=
    match s with
    | String "0" (String "x" s') => s'
    | String "0" (String "X" s') => s'
    | _ => s
    end in
  option_map (fun n => if negative : bool then - n else n) (hex_digits s None).

(** The three numbers in the [rgba(...)] of the trail of target [i]. *)
Definition trail_rgb (i : nat) : option (option Z * option Z * option Z) :=
  option_map
    (fun c => (parseInt16 (substr 1 2 c), parseInt16 (substr 3 2 c),
               parseInt16 (substr 5 2 c)))
    (color i).

End Page.

(* ===================================================================== *)
(** ** Facts about the library functions *)
(* ===================================================================== *)

Lemma startswith_app (pat rest : bytes) : startswith pat (pat ++ rest)%list = true.
Proof.
  induction pat as [|p pat IH]; simpl; [reflexivity|].
  rewrite IH, (Byte.byte_dec_lb (x := p) eq_refl). reflexivity.
Qed.

Lemma startswith_spec (pat s : bytes) :
  startswith pat s = true <-> exists rest, s = (pat ++ rest)%list.
Proof.
  split.
  - revert s. induction pat as [|p pat IH]; intros s Hs.
    + exists s. reflexivity.
    + destruct s as [|c s]; simpl in Hs; [discriminate|].
      apply andb_true_iff in Hs. destruct Hs as [Hpc Hrest].
      apply Byte.byte_dec_bl in Hpc. subst c.
      destruct (IH s Hrest) as [rest ->]. exists rest. reflexivity.
  - intros [rest ->]. apply startswith_app.
Qed.

(** [pat in s] holds exactly when [s] is some bytes, then [pat], then some
    bytes. *)
Lemma contains_spec (pat s : bytes) :
  contains pat s = true <-> exists before after, s = (before ++ pat ++ after)%list.
Proof.
  split.
  - induction s as [|c s IH]; simpl; intros Hs.
    + rewrite orb_false_r in Hs. apply startswith_spec in Hs.
      destruct Hs as [rest Hrest]. exists [], rest. exact Hrest.
    + apply orb_true_iff in Hs. destruct Hs as [Hs|Hs].
      * apply startswith_spec in Hs. destruct Hs as [rest Hrest].
        exists [], rest. exact Hrest.
      * destruct (IH Hs) as (before & after & ->).
        exists (c :: before), after. reflexivity.
  - intros (before & after & ->).
    induction before as [|c before IH]; simpl.
    + destruct (pat ++ after)%list eqn:Heq; simpl.
      * destruct pat; [reflexivity | discriminate].
      * rewrite <- Heq, startswith_app. reflexivity.
    + rewrite IH. apply orb_true_r.
Qed.

Lemma startswith_contains (pat s : bytes) :
  startswith pat s = true -> contains pat s = true.
Proof.
  intros Hs. destruct s; simpl; rewrite Hs; reflexivity.
Qed.





Lemma list_comp_acc {A B : Type} (f : A -> B) (cond : A -> bool) (xs : list A) (acc : list B) :
  fold_left (fun acc x => if cond x then (acc ++ [f x])%list else acc) xs acc
  = (acc ++ map f (filter cond xs))%list.
Proof.
  revert acc. induction xs as [|x xs IH]; intros acc; simpl.
  - symmetry. apply app_nil_r.
  - rewrite IH. destruct (cond x); simpl; [|reflexivity].
    rewrite <- app_assoc. reflexivity.
Qed.

(** The comprehension is the image of the slots that pass the test, in
    the order of the slots. *)
Lemma list_comp_map_filter {A B : Type} (f : A -> B) (cond : A -> bool) (xs : list A) :
  list_comp f cond xs = map f (filter cond xs).
Proof. unfold list_comp. rewrite list_comp_acc. reflexivity. Qed.

(** Where the entry of a kept slot lands: after the entries of the kept
    slots before it. *)
Lemma nth_error_map_filter {A B : Type} (f : A -> B) (cond : A -> bool) (xs : list A) :
  forall (i : nat) (x : A),
    nth_error xs i = Some x -> cond x = true ->
    nth_error (map f (filter cond xs)) (List.length (filter cond (firstn i xs))) = Some (f x).
Proof.
  induction xs as [|y xs IH]; intros i x Hi Hx.
  - destruct i; discriminate.
  - destruct i as [|i]; simpl in Hi.
    + injection Hi as ->. simpl. rewrite Hx. reflexivity.
    + simpl. destruct (cond y); simpl; apply IH; assumption.
Qed.

Lemma filter_none {A : Type} (cond : A -> bool) (xs : list A) :
  (forall x, In x xs -> cond x = false) -> filter cond xs = [].
Proof.
  induction xs as [|x xs IH]; intros Hnone; simpl; [reflexivity|].
  rewrite (Hnone x (or_introl eq_refl)).
  apply IH. intros y Hy. apply Hnone. right. exact Hy.
Qed.

(** ... and every entry is the entry of a kept slot. *)
Lemma nth_error_map_filter_inv {A B : Type} (f : A -> B) (cond : A -> bool) (xs : list A) :
  forall (j : nat) (y : B),
    nth_error (map f (filter cond xs)) j = Some y ->
    exists (i : nat) (x : A),
      nth_error xs i = Some x /\ cond x = true /\ y = f x
      /\ j = List.length (filter cond (firstn i xs)).
Proof.
  induction xs as [|x xs IH]; intros j y Hj; simpl in Hj.
  - destruct j; discriminate.
  - destruct (cond x) eqn:Hx.
    + destruct j as [|j]; simpl in Hj.
      * injection Hj as <-. exists 0%nat, x. simpl. auto.
      * destruct (IH j y Hj) as (i & x' & Hi & Hx' & Hy & Hlen).
        exists (S i), x'. simpl. rewrite Hx. simpl. auto.
    + destruct (IH j y Hj) as (i & x' & Hi & Hx' & Hy & Hlen).
      exists (S i), x'. simpl. rewrite Hx. auto.
Qed.

(* ===================================================================== *)
(** ** Facts about the program *)
(* ===================================================================== *)

Section ProgramFacts.

Context `{E : Externals}.

(** *** Running *)

Lemma run_bind {A B : Type} (t : Task A) (f : A -> Task B) (w : World) :
  run (bind t f) w =
  match result (run t w) with
  | inl e => mkOutcome (inl e) (final (run t w)) (trace (run t w))
  | inr a =>
      let r := run (f a) (final (run t w)) in
      mkOutcome (result r) (final r) (trace (run t w) ++ trace r)%list
  end.
Proof.
  revert w. induction t as [a|e|X o k IH]; intros w; simpl.
  - destruct (run (f a) w); reflexivity.
  - reflexivity.
  - destruct (perform o w) as [x w']. rewrite IH.
    destruct (result (run (k x) w')); reflexivity.
Qed.

Lemma run_try_except {A : Type} (t : Task A) (h : exn -> Task A) (w : World) :
  run (try_except t h) w =
  match result (run t w) with
  | inl e =>
      if is_Exception e then
        let r := run (h e) (final (run t w)) in
        mkOutcome (result r) (final r) (trace (run t w) ++ trace r)%list
      else mkOutcome (inl e) (final (run t w)) (trace (run t w))
  | inr a => mkOutcome (inr a) (final (run t w)) (trace (run t w))
  end.
Proof.
  revert w. induction t as [a|e|X o k IH]; intros w; simpl.
  - reflexivity.
  - destruct (is_Exception e); [|reflexivity]. destruct (run (h e) w); reflexivity.
  - destruct (perform o w) as [x w']. rewrite IH.
    destruct (result (run (k x) w')) as [e|a]; simpl; [|reflexivity].
    destruct (is_Exception e); reflexivity.
Qed.

Lemma run_try_finally {A : Type} (t : Task A) (f : Task unit) (w : World) :
  run (try_finally t f) w =
  let r1 := run t w in
  let r2 := run f (final r1) in
  mkOutcome (match result r2 with inl e => inl e | inr _ => result r1 end)
            (final r2) (trace r1 ++ trace r2)%list.
Proof.
  revert w. induction t as [a|e|X o k IH]; intros w; simpl.
  - rewrite run_bind. destruct (result (run f w)); simpl; rewrite ?app_nil_r; reflexivity.
  - rewrite run_bind. destruct (result (run f w)); simpl; rewrite ?app_nil_r; reflexivity.
  - destruct (perform o w) as [x w']. rewrite IH. reflexivity.
Qed.

(** Slices compose to the run: a coroutine that runs a slice and then
    runs alone to its end returns what it returns, and leaves the state it
    leaves, when it runs alone from the start. *)
Lemma run_atomic {A : Type} (t : Task A) (w : World) :
  result (run (fst (atomic t w)) (snd (atomic t w))) = result (run t w)
  /\ final (run (fst (atomic t w)) (snd (atomic t w))) = final (run t w).
Proof.
  revert w. induction t as [a|e|X o k IH]; intros w; simpl; auto.
  destruct (suspends o); simpl.
  - destruct (perform o w) as [x w']. auto.
  - destruct (perform o w) as [x w']. apply IH.
Qed.

Lemma run_advance {A : Type} (t : Task A) (w : World) :
  result (run (fst (advance t w)) (snd (advance t w))) = result (run t w)
  /\ final (run (fst (advance t w)) (snd (advance t w))) = final (run t w).
Proof.
  destruct t as [a|e|X o k]; simpl; auto.
  destruct (perform o w) as [x w']. apply run_atomic.
Qed.

(** Only [StoreLastTargets] touches [last_targets]. *)
Lemma perform_last_targets {X : Type} (o : op X) (w : World) :
  match o with StoreLastTargets _ => False | _ => True end ->
  last_targets (snd (perform o w)) = last_targets w.
Proof.
  destruct o; simpl; intros Ho; try reflexivity; try contradiction.
  - destruct (update (radar w)); reflexivity.
  - destruct (rfault (sockets w h)); reflexivity.
  - destruct (wfault (sockets w h)); reflexivity.
Qed.

Lemma store_free_bind {A B : Type} (t : Task A) (f : A -> Task B) :
  store_free t -> (forall a, store_free (f a)) -> store_free (bind t f).
Proof.
  induction t as [a|e|X o k IH]; simpl; intros Ht Hf; auto.
  destruct Ht as [Ho Hk]. split; [exact Ho|]. intros x. apply IH; auto.
Qed.

Lemma store_free_try_except {A : Type} (t : Task A) (h : exn -> Task A) :
  store_free t -> (forall e, store_free (h e)) -> store_free (try_except t h).
Proof.
  induction t as [a|e|X o k IH]; simpl; intros Ht Hh; auto.
  - destruct (is_Exception e); simpl; auto.
  - destruct Ht as [Ho Hk]. split; [exact Ho|]. intros x. apply IH; auto.
Qed.

Lemma store_free_try_finally {A : Type} (t : Task A) (f : Task unit) :
  store_free t -> store_free f -> store_free (try_finally t f).
Proof.
  induction t as [a|e|X o k IH]; simpl; intros Ht Hf.
  - apply store_free_bind; simpl; auto.
  - apply store_free_bind; simpl; auto.
  - destruct Ht as [Ho Hk]. split; [exact Ho|]. intros x. apply IH; auto.
Qed.

Lemma store_free_route (request : bytes) : store_free (route request).
Proof.
  unfold route.
  destruct (contains GET_data request); [simpl; auto|].
  destruct (contains GET_calibrate request); simpl; auto 10.
Qed.

(** [handle_client] has no assignment to [last_targets]. *)
Lemma store_free_handle_client (reader writer : handle) :
  store_free (handle_client reader writer).
Proof.
  unfold handle_client.
  apply store_free_try_finally; [|simpl; auto].
  apply store_free_try_except; [|simpl; auto].
  apply store_free_bind.
  - simpl. split; [exact I|]. intros [e|data]; exact I.
  - intros request. apply store_free_bind; [apply store_free_route|].
    intros response. simpl. split; [exact I|]. intros [e|u]; exact I.
Qed.

Lemma run_store_free {A : Type} (t : Task A) (w : World) :
  store_free t ->
  last_targets (final (run t w)) = last_targets w /\ publishes (trace (run t w)) = 0%nat.
Proof.
  revert w. induction t as [a|e|X o k IH]; intros w Ht; simpl; auto.
  destruct Ht as [Ho Hk].
  pose proof (perform_last_targets o w Ho) as Hp.
  destruct (perform o w) as [x w']. simpl in *.
  destruct (IH x w' (Hk x)) as [Hl Hn]. split; [congruence|].
  unfold publishes in *. simpl.
  destruct o; simpl; try exact Hn; contradiction.
Qed.

Lemma atomic_store_free {A : Type} (t : Task A) (w : World) :
  store_free t ->
  store_free (fst (atomic t w)) /\ last_targets (snd (atomic t w)) = last_targets w.
Proof.
  revert w. induction t as [a|e|X o k IH]; intros w Ht; simpl; auto.
  destruct (suspends o); [simpl; auto|].
  destruct Ht as [Ho Hk].
  pose proof (perform_last_targets o w Ho) as Hp.
  destruct (perform o w) as [x w']. simpl in *.
  destruct (IH x w' (Hk x)) as [Hs Hl]. split; [exact Hs | congruence].
Qed.

Lemma advance_store_free {A : Type} (t : Task A) (w : World) :
  store_free t ->
  store_free (fst (advance t w)) /\ last_targets (snd (advance t w)) = last_targets w.
Proof.
  destruct t as [a|e|X o k]; simpl; auto.
  intros [Ho Hk].
  pose proof (perform_last_targets o w Ho) as Hp.
  destruct (perform o w) as [x w']. simpl in *.
  destruct (atomic_store_free (k x) w' (Hk x)) as [Hs Hl]. split; [exact Hs | congruence].
Qed.

(** *** One iteration of [sensor_task] *)

Lemma sensor_iteration_final (w : World) :
  final (run sensor_task_iteration w) =
  if fst (update (radar w)) then
    set_last_targets
      (list_comp (to_display fmt) has_target (targets (snd (update (radar w)))))
      (set_radar (snd (update (radar w))) w)
  else set_radar (snd (update (radar w))) w.
Proof.
  unfold sensor_task_iteration. simpl.
  destruct (update (radar w)) as [[|] r]; reflexivity.
Qed.

Lemma sensor_iteration_publishes (w : World) :
  publishes (trace (run sensor_task_iteration w)) =
  if fst (update (radar w)) then 1%nat else 0%nat.
Proof.
  unfold sensor_task_iteration. simpl.
  destruct (update (radar w)) as [[|] r]; reflexivity.
Qed.

(** The iteration has one [await], its last operation: a slice of the
    scheduler runs all of it. *)
Lemma sensor_iteration_atomic (w : World) :
  snd (atomic sensor_task_iteration w) = final (run sensor_task_iteration w).
Proof.
  unfold sensor_task_iteration. simpl.
  destruct (update (radar w)) as [[|] r]; reflexivity.
Qed.

(** *** The scheduler *)

Lemma Forall_replace {A : Type} (P : A -> Prop) (i : nat) (x : A) (l : list A) :
  Forall P l -> P x -> Forall P (replace i x l).
Proof.
  intros Hl Hx. revert i. induction Hl as [|y l Hy Hl IH]; intros i; simpl.
  - destruct i; constructor.
  - destruct i; constructor; auto.
Qed.

Lemma nth_error_replace_other {A : Type} (i j : nat) (x : A) (l : list A) :
  j <> i -> nth_error (replace i x l) j = nth_error l j.
Proof.
  revert i j. induction l as [|y l IH]; intros i j Hij; simpl.
  - destruct i; reflexivity.
  - destruct i as [|i], j as [|j]; simpl; try reflexivity; try congruence.
    apply IH. congruence.
Qed.

(** A slice of one [handle_client] leaves the other coroutines where they
    are. *)
Lemma step_client_others (i j : nat) (s s' : System) :
  step (Client i) s s' -> j <> i -> nth_error (clients s') j = nth_error (clients s) j.
Proof.
  intros Hstep Hij. inversion Hstep; subst; simpl.
  apply nth_error_replace_other. exact Hij.
Qed.

Lemma step_store_free (l : label) (s s' : System) :
  step l s s' -> Forall store_free (clients s) -> Forall store_free (clients s').
Proof.
  intros Hstep Hs. destruct Hstep as [s|s c h|s i t Ht]; simpl.
  - exact Hs.
  - apply Forall_app. split; [exact Hs|].
    constructor; [apply store_free_handle_client | constructor].
  - apply Forall_replace; [exact Hs|].
    apply advance_store_free.
    apply nth_error_In in Ht. rewrite Forall_forall in Hs. auto.
Qed.

Lemma steps_store_free (ls : list label) (s s' : System) :
  steps ls s s' -> Forall store_free (clients s) -> Forall store_free (clients s').
Proof.
  induction 1 as [s|l ls s1 s2 s3 Hstep _ IH]; intros Hs; [exact Hs|].
  apply IH. eapply step_store_free; eauto.
Qed.

(** Every coroutine the scheduler holds is a [handle_client] at some point
    of its run: none assigns [last_targets]. *)
Lemma reachable_store_free (s : System) :
  reachable s -> Forall store_free (clients s).
Proof.
  intros (r & socks & ls & Hsteps).
  eapply steps_store_free; [exact Hsteps | constructor].
Qed.

(** A slice either is a poll that found a new frame, or leaves
    [last_targets] as it was. *)
Lemma step_last_targets (l : label) (s s' : System) :
  Forall store_free (clients s) ->
  step l s s' ->
  (l = Poll /\ fst (update (radar (globals s))) = true)
  \/ last_targets (globals s') = last_targets (globals s).
Proof.
  intros Hs Hstep. destruct Hstep as [s|s c h|s i t Ht]; cbn [globals clients].
  - rewrite sensor_iteration_atomic, sensor_iteration_final.
    destruct (fst (update (radar (globals s)))); [left; auto | right; reflexivity].
  - right. reflexivity.
  - right. apply advance_store_free.
    apply nth_error_In in Ht. rewrite Forall_forall in Hs. auto.
Qed.

Lemma idle_steps_last_targets (s s' : System) :
  idle_steps s s' ->
  Forall store_free (clients s) ->
  last_targets (globals s') = last_targets (globals s)
  /\ Forall store_free (clients s').
Proof.
  induction 1 as [s|l s1 s2 s3 Hstep Hidle _ IH]; intros Hs; [auto|].
  destruct (IH (step_store_free _ _ _ Hstep Hs)) as [Hl Hf].
  split; [|exact Hf].
  rewrite Hl.
  destruct (step_last_targets _ _ _ Hs Hstep) as [[Hpoll Hfresh]|Hsame]; [|exact Hsame].
  rewrite (Hidle Hpoll) in Hfresh. discriminate.
Qed.

(** *** The snapshot *)

(** C2.  When a poll finds a new frame, the snapshot it publishes is the
    image of the slots with a distance above zero, in slot order: a slot
    with a positive distance has its entry, at the rank it has among such
    slots; every entry of the snapshot is the entry of such a slot; and
    when no slot has a positive distance the snapshot is empty. *)
Theorem snapshot_is_the_present_targets (w : World) :
  fst (update (radar w)) = true ->
  let ts := targets (snd (update (radar w))) in
  let snapshot := last_targets (final (run sensor_task_iteration w)) in
  snapshot = map (to_display fmt) (filter has_target ts)
  /\ (forall t, has_target t = true <-> 0 < Target.distance t)
  /\ (forall i t,
        nth_error ts i = Some t -> 0 < Target.distance t ->
        nth_error snapshot (List.length (filter has_target (firstn i ts)))
        = Some (to_display fmt t))
  /\ (forall j d,
        nth_error snapshot j = Some d ->
        exists i t,
          nth_error ts i = Some t /\ 0 < Target.distance t /\ d = to_display fmt t
          /\ j = List.length (filter has_target (firstn i ts)))
  /\ ((forall t, In t ts -> Target.distance t <= 0) -> snapshot = []).
Proof.
  intros Hfresh ts snapshot.
  assert (Hsnap : snapshot = map (to_display fmt) (filter has_target ts)).
  { subst snapshot ts. rewrite sensor_iteration_final, Hfresh. simpl.
    apply list_comp_map_filter. }
  assert (Hpos : forall t, has_target t = true <-> 0 < Target.distance t).
  { intros t. unfold has_target. apply Z.ltb_lt. }
  split; [exact Hsnap|]. split; [exact Hpos|]. rewrite Hsnap.
  split; [|split].
  - intros i t Hi Ht. apply nth_error_map_filter; [exact Hi | apply Hpos; exact Ht].
  - intros j d Hj.
    destruct (nth_error_map_filter_inv _ _ _ _ _ Hj) as (i & t & Hi & Ht & Hd & Hlen).
    exists i, t. rewrite Hpos in Ht. auto.
  - intros Hnone. rewrite filter_none; [reflexivity|].
    intros t Ht. specialize (Hnone t Ht).
    destruct (has_target t) eqn:Hkept; [|reflexivity].
    apply Hpos in Hkept. lia.
Qed.

(** C5.  A poll that finds no new frame leaves [last_targets] as it was
    and performs no assignment to it; a poll that finds one assigns it
    once; and whenever a slice of the scheduler changes [last_targets],
    that slice is a poll that found a new frame. *)
Theorem snapshot_replaced_only_on_new_data :
  (forall w : World,
      fst (update (radar w)) = false ->
      last_targets (final (run sensor_task_iteration w)) = last_targets w
      /\ publishes (trace (run sensor_task_iteration w)) = 0%nat)
  /\ (forall w : World,
        fst (update (radar w)) = true ->
        last_targets (final (run sensor_task_iteration w))
        = list_comp (to_display fmt) has_target (targets (snd (update (radar w))))
        /\ publishes (trace (run sensor_task_iteration w)) = 1%nat)
  /\ (forall (l : label) (s s' : System),
        reachable s -> step l s s' ->
        last_targets (globals s') <> last_targets (globals s) ->
        l = Poll /\ fst (update (radar (globals s))) = true).
Proof.
  split; [|split].
  - intros w Hstale.
    rewrite sensor_iteration_final, sensor_iteration_publishes, Hstale. auto.
  - intros w Hfresh.
    rewrite sensor_iteration_final, sensor_iteration_publishes, Hfresh. auto.
  - intros l s s' Hs Hstep Hchanged.
    destruct (step_last_targets l s s' (reachable_store_free s Hs) Hstep)
      as [Hpoll|Hsame].
    + exact Hpoll.
    + contradiction.
Qed.

(** *** Calibration *)


(** *** Serving a connection *)

(** What [route] does, branch by branch. *)
Lemma run_route (request : bytes) (w : World) :
  run (route request) w =
  if contains GET_data request then
    mkOutcome (inr (json_response (last_targets w))) w
              [Event LoadLastTargets (last_targets w)]
  else if contains GET_calibrate request then
    mkOutcome (inr calibrated_response)
              (set_radar (mkRadar [] (dev (radar w))) w)
              (trace (run calibrate w))
  else mkOutcome (inr html_response) w [].
Proof.
  unfold route.
  destruct (contains GET_data request); [reflexivity|].
  destruct (contains GET_calibrate request); reflexivity.
Qed.

Local Opaque firstn skipn.
Local Arguments json_response : simpl never.
Local Arguments calibrated_response : simpl never.
Local Arguments html_response : simpl never.
Local Arguments String.append : simpl never.

Ltac crunch :=
  repeat (simpl; rewrite ?Nat.eqb_refl;
          try match goal with
              | H : ?x = _ |- context [match ?x with _ => _ end] => rewrite H
              | H : ?x = _ |- context [if ?x then _ else _] => rewrite H
              end).

(** [handle_client] on the stream [h], from any state of the socket: what
    it returns, and what it leaves behind, by the faults of the socket. *)
Lemma handle_client_outcome (h : handle) (w : World) :
  let c := sockets w h in
  let request := firstn 1024 (rx c) in
  let r := run (handle_client h h) w in
  let routed := run (route request) w in
  result r = inr tt
  /\ closed (sockets (final r) h) = true
  /\ (forall h', h' <> h -> sockets (final r) h' = sockets w h')
  /\ last_targets (final r) = last_targets w
  /\ match rfault c with
     | Some errno =>
         radar (final r) = radar w
         /\ tx (sockets (final r) h) = tx c
         /\ resets (trace r) = 0%nat
         /\ printed (trace r) = ["Client error: " ++ str (OSError errno)]
     | None =>
         radar (final r) = radar (final routed)
         /\ resets (trace r) = resets (trace routed)
         /\ match wfault c with
            | Some errno =>
                tx (sockets (final r) h) = tx c
                /\ printed (trace r)
                   = (printed (trace routed)
                      ++ [("Client error: " ++ str (OSError errno))%string])%list
            | None =>
                exists response,
                  result routed = inr response
                  /\ tx (sockets (final r) h) = (tx c ++ [response])%list
                  /\ printed (trace r) = printed (trace routed)
            end
     end.
Proof.
  intros c request r routed.
  subst r routed. unfold handle_client, route.
  destruct (rfault c) as [errno|] eqn:Hr; subst c; crunch.
  - repeat split; auto.
    intros h' Hh'. apply Nat.eqb_neq in Hh'. rewrite Hh'. reflexivity.
  - fold request.
    destruct (wfault (sockets w h)) as [errno|] eqn:Hw;
      destruct (contains GET_data request) eqn:Hd;
      [ | destruct (contains GET_calibrate request) eqn:Hc
        | | destruct (contains GET_calibrate request) eqn:Hc ];
      crunch.
    all: repeat split; auto.
    all: try (intros h' Hh'; apply Nat.eqb_neq in Hh'; rewrite ?Hh'; reflexivity).
    all: eexists; repeat split.
Qed.


(** C10.  When the buffer contains both [GET /data] and [GET /calibrate],
    the one response written is the JSON document: [radar.targets] is not
    assigned and the driver is left as it was, and nothing of [calibrate]
    is printed. *)
Theorem data_takes_precedence_over_calibrate (h : handle) (w : World) :
  rfault (sockets w h) = None ->
  wfault (sockets w h) = None ->
  let request := firstn 1024 (rx (sockets w h)) in
  let r := run (handle_client h h) w in
  contains GET_data request = true ->
  contains GET_calibrate request = true ->
  tx (sockets (final r) h) = (tx (sockets w h) ++ [json_response (last_targets w)])%list
  /\ resets (trace r) = 0%nat
  /\ radar (final r) = radar w
  /\ printed (trace r) = [].
Proof.
  intros Hr Hw request r Hd Hc.
  destruct (handle_client_outcome h w) as (_ & _ & _ & _ & Hcase).
  rewrite Hr, Hw in Hcase. fold request r in Hcase.
  destruct Hcase as (Hradar & Hresets & response & Hrouted & Htx & Hprinted).
  rewrite run_route, Hd in Hrouted, Hradar, Hresets, Hprinted.
  simpl in Hrouted, Hradar, Hresets, Hprinted. injection Hrouted as <-.
  auto.
Qed.

(** C4.  As long as no poll has found a new frame since the program
    started, [last_targets] is the empty list; routing a buffer that
    contains [GET /data] then raises nothing and yields the JSON response
    whose body is the text [{"targets": []}] (written here with [dquote]
    for the double quotes), and that is the one response [handle_client]
    writes on a connection whose read and write succeed. *)
Theorem data_before_first_publish_is_empty
    (r0 : RD03D Dev) (socks : handle -> Conn) (s : System) (h : handle) :
  idle_steps (boot r0 socks) s ->
  let w := globals s in
  let request := firstn 1024 (rx (sockets w h)) in
  contains GET_data request = true ->
  last_targets w = []
  /\ result (run (route request) w) = inr (json_response [])
  /\ json_response []
     = status_line ++ CRLF ++ "Content-Type: application/json" ++ CRLF ++ CRLF
       ++ "{" ++ PyJson.dquote ++ "targets" ++ PyJson.dquote ++ ": []}"
  /\ result (run (handle_client h h) w) = inr tt
  /\ (rfault (sockets w h) = None -> wfault (sockets w h) = None ->
      tx (sockets (final (run (handle_client h h) w)) h)
      = (tx (sockets w h) ++ [json_response []])%list).
Proof.
  intros Hidle w request Hd.
  assert (Hempty : last_targets w = []).
  { destruct (idle_steps_last_targets _ _ Hidle) as [Hl _]; [constructor|]. exact Hl. }
  split; [exact Hempty|].
  split; [rewrite run_route, Hd, Hempty; reflexivity|].
  split; [reflexivity|].
  destruct (handle_client_outcome h w) as (Hres & _ & _ & _ & Hcase).
  split; [exact Hres|].
  intros Hr Hw. fold w in Hcase. rewrite Hr, Hw in Hcase. fold request in Hcase.
  destruct Hcase as (_ & _ & response & Hrouted & Htx & _).
  rewrite run_route, Hd, Hempty in Hrouted. simpl in Hrouted.
  injection Hrouted as <-. exact Htx.
Qed.

(** The response [route] yields depends on the buffer and on
    [last_targets] only. *)
Lemma route_result_frame (request : bytes) (w w' : World) :
  last_targets w' = last_targets w ->
  result (run (route request) w') = result (run (route request) w).
Proof.
  intros Hl. rewrite !run_route, Hl.
  destruct (contains GET_data request); [reflexivity|].
  destruct (contains GET_calibrate request); reflexivity.
Qed.

(** What [handle_client] writes on its stream depends on the socket and on
    [last_targets] only. *)
Lemma handle_client_tx_frame (h : handle) (w w' : World) :
  sockets w' h = sockets w h ->
  last_targets w' = last_targets w ->
  tx (sockets (final (run (handle_client h h) w')) h)
  = tx (sockets (final (run (handle_client h h) w)) h).
Proof.
  intros Hs Hl.
  destruct (handle_client_outcome h w) as (_ & _ & _ & _ & Hcase).
  destruct (handle_client_outcome h w') as (_ & _ & _ & _ & Hcase').
  rewrite Hs in Hcase'.
  rewrite (route_result_frame _ w w' Hl) in Hcase'.
  destruct (rfault (sockets w h)) as [errno|].
  - destruct Hcase as (_ & Htx & _). destruct Hcase' as (_ & Htx' & _). congruence.
  - destruct Hcase as (_ & _ & Hcase). destruct Hcase' as (_ & _ & Hcase').
    destruct (wfault (sockets w h)) as [errno|].
    + destruct Hcase as (Htx & _). destruct Hcase' as (Htx' & _). congruence.
    + destruct Hcase as (response & Hrouted & Htx & _).
      destruct Hcase' as (response' & Hrouted' & Htx' & _).
      congruence.
Qed.

(** At the end of the slice in which it reads a buffer that contains
    [GET /data], [handle_client] is suspended on the write of the JSON
    response of the snapshot of that moment. *)
Lemma handle_client_data_slice (h : handle) (w : World) :
  rfault (sockets w h) = None ->
  contains GET_data (firstn 1024 (rx (sockets w h))) = true ->
  pending_write (fst (advance (handle_client h h) w))
  = Some (json_response (last_targets w)).
Proof.
  intros Hr Hd. unfold handle_client, route. crunch. reflexivity.
Qed.

(** C6.  Take two connections whose read and write succeed and whose
    buffers contain [GET /data], the first served in a state [s1] of the
    program, the second in a state [s2] reached from [s1] by slices of
    which no poll found a new frame.  Both get the same response, byte
    for byte: the JSON document of [last_targets] as it was in [s1].  It
    is fixed in the slice in which the buffer is read, and serving it
    leaves [last_targets] as it was, without assigning it. *)
Theorem data_requests_repeat (s1 s2 : System) (h1 h2 : handle) :
  reachable s1 ->
  idle_steps s1 s2 ->
  let w1 := globals s1 in
  let w2 := globals s2 in
  rfault (sockets w1 h1) = None -> wfault (sockets w1 h1) = None ->
  contains GET_data (firstn 1024 (rx (sockets w1 h1))) = true ->
  rfault (sockets w2 h2) = None -> wfault (sockets w2 h2) = None ->
  contains GET_data (firstn 1024 (rx (sockets w2 h2))) = true ->
  let r1 := run (handle_client h1 h1) w1 in
  let r2 := run (handle_client h2 h2) w2 in
  exists response,
    response = json_response (last_targets w1)
    /\ tx (sockets (final r1) h1) = (tx (sockets w1 h1) ++ [response])%list
    /\ tx (sockets (final r2) h2) = (tx (sockets w2 h2) ++ [response])%list
    /\ pending_write (fst (advance (handle_client h1 h1) w1)) = Some response
    /\ pending_write (fst (advance (handle_client h2 h2) w2)) = Some response
    /\ last_targets (final r1) = last_targets w1
    /\ publishes (trace r1) = 0%nat.
Proof.
  intros Hs1 Hidle w1 w2 Hr1 Hw1 Hd1 Hr2 Hw2 Hd2 r1 r2.
  assert (Hsame : last_targets w2 = last_targets w1).
  { apply (idle_steps_last_targets s1 s2 Hidle). apply reachable_store_free. exact Hs1. }
  exists (json_response (last_targets w1)).
  split; [reflexivity|].
  destruct (handle_client_outcome h1 w1) as (_ & _ & _ & Hl1 & Hcase1).
  destruct (handle_client_outcome h2 w2) as (_ & _ & _ & _ & Hcase2).
  rewrite Hr1, Hw1 in Hcase1. rewrite Hr2, Hw2 in Hcase2.
  destruct Hcase1 as (_ & _ & resp1 & Hrouted1 & Htx1 & _).
  destruct Hcase2 as (_ & _ & resp2 & Hrouted2 & Htx2 & _).
  rewrite run_route, Hd1 in Hrouted1. rewrite run_route, Hd2 in Hrouted2.
  simpl in Hrouted1, Hrouted2.
  injection Hrouted1 as <-. injection Hrouted2 as <-.
  fold w2 in Htx2. rewrite Hsame in Htx2.
  split; [exact Htx1|]. split; [exact Htx2|].
  split; [apply handle_client_data_slice; assumption|].
  split; [rewrite <- Hsame; apply handle_client_data_slice; assumption|].
  split; [exact Hl1|].
  apply run_store_free. apply store_free_handle_client.
Qed.

(** C9.  Whatever the socket does, [handle_client] returns normally, with
    the stream closed, [last_targets] as it was and never assigned, and
    the other sockets untouched.  When the read fails the driver is left
    as it was and nothing is written; when the write fails nothing is
    written.  A connection served afterwards on another stream returns
    normally, is closed, and is written what it would have been written
    had the first connection never been there.  More generally, whatever
    the body of the [try] is, the stream is closed at the end, and an
    exception that comes out is not of class [Exception]. *)
Theorem connection_faults_are_contained (h : handle) (w : World) :
  let r := run (handle_client h h) w in
  (result r = inr tt
   /\ closed (sockets (final r) h) = true
   /\ last_targets (final r) = last_targets w
   /\ publishes (trace r) = 0%nat)
  /\ (rfault (sockets w h) <> None ->
      radar (final r) = radar w /\ tx (sockets (final r) h) = tx (sockets w h))
  /\ (wfault (sockets w h) <> None -> tx (sockets (final r) h) = tx (sockets w h))
  /\ (forall h2 : handle,
        h2 <> h ->
        let r2 := run (handle_client h2 h2) (final r) in
        sockets (final r) h2 = sockets w h2
        /\ result r2 = inr tt
        /\ closed (sockets (final r2) h2) = true
        /\ tx (sockets (final r2) h2)
           = tx (sockets (final (run (handle_client h2 h2) w)) h2))
  /\ (forall (body : Task unit) (w' : World),
        let g := run (try_finally
                        (try_except body (fun e => print ("Client error: " ++ str e)))
                        (aclose h)) w' in
        closed (sockets (final g) h) = true
        /\ forall e, result g = inl e -> is_Exception e = false).
Proof.
  intros r.
  destruct (handle_client_outcome h w) as (Hres & Hclosed & Hothers & Hl & Hcase).
  fold r in Hres, Hclosed, Hothers, Hl, Hcase.
  split; [|split; [|split; [|split]]].
  - repeat split; auto.
    apply run_store_free. apply store_free_handle_client.
  - intros Hfault. destruct (rfault (sockets w h)); [|congruence].
    destruct Hcase as (Hradar & Htx & _). auto.
  - intros Hfault. destruct (rfault (sockets w h)).
    + destruct Hcase as (_ & Htx & _). exact Htx.
    + destruct Hcase as (_ & _ & Hcase).
      destruct (wfault (sockets w h)); [|congruence].
      destruct Hcase as (Htx & _). exact Htx.
  - intros h2 Hh2 r2.
    destruct (handle_client_outcome h2 (final r)) as (Hres2 & Hclosed2 & _).
    split; [apply Hothers; exact Hh2|].
    split; [exact Hres2|]. split; [exact Hclosed2|].
    apply handle_client_tx_frame; [apply Hothers; exact Hh2 | exact Hl].
  - intros body w' g. subst g.
    rewrite run_try_finally, run_try_except. cbn zeta.
    destruct (result (run body w')) as [e|u]; simpl.
    + destruct (is_Exception e) eqn:He; simpl; rewrite Nat.eqb_refl; simpl.
      * split; [reflexivity|]. intros e' He'. discriminate.
      * split; [reflexivity|]. intros e' He'. injection He' as <-. exact He.
    + rewrite Nat.eqb_refl. simpl. split; [reflexivity|]. intros e' He'. discriminate.
Qed.

(** C8, amended.  The route depends on the buffer only through which of
    the two patterns occur in it, anywhere: two buffers that contain the
    same patterns are routed alike.  A buffer that contains [GET /data]
    gets the JSON response; one that does not, and contains
    [GET /calibrate], the acknowledgement; one that contains neither, the
    HTML page.  A pattern occurs in a buffer when the buffer is some
    bytes, the pattern, and some bytes; a buffer that starts with a
    pattern contains it. *)
Theorem route_is_decided_by_containment :
  (forall request1 request2 : bytes,
      contains GET_data request1 = contains GET_data request2 ->
      contains GET_calibrate request1 = contains GET_calibrate request2 ->
      route request1 = route request2)
  /\ (forall (request : bytes) (w : World),
        contains GET_data request = true ->
        result (run (route request) w) = inr (json_response (last_targets w)))
  /\ (forall (request : bytes) (w : World),
        contains GET_data request = false ->
        contains GET_calibrate request = true ->
        result (run (route request) w) = inr calibrated_response)
  /\ (forall (request : bytes) (w : World),
        contains GET_data request = false ->
        contains GET_calibrate request = false ->
        result (run (route request) w) = inr html_response)
  /\ (forall pat request : bytes,
        contains pat request = true
        <-> exists before after, request = (before ++ pat ++ after)%list)
  /\ (forall pat request : bytes,
        startswith pat request = true -> contains pat request = true).
Proof.
  split; [|split; [|split; [|split; [|split]]]].
  - intros request1 request2 Hd Hc. unfold route. rewrite Hd, Hc. reflexivity.
  - intros request w Hd. rewrite run_route, Hd. reflexivity.
  - intros request w Hd Hc. rewrite run_route, Hd, Hc. reflexivity.
  - intros request w Hd Hc. rewrite run_route, Hd, Hc. reflexivity.
  - apply contains_spec.
  - apply startswith_contains.
Qed.

End ProgramFacts.

(* ===================================================================== *)
(** ** The transform of one slot *)
(* ===================================================================== *)


(* ===================================================================== *)
(** ** More facts about the program *)
(* ===================================================================== *)

Lemma startswith_length (pat s : bytes) :
  startswith pat s = true -> (List.length pat <= List.length s)%nat.
Proof.
  revert s. induction pat as [|p pat IH]; intros s Hs; simpl; [lia|].
  destruct s as [|c s]; simpl in Hs; [discriminate|].
  apply andb_true_iff in Hs. destruct Hs as [_ Hs]. apply IH in Hs. simpl. lia.
Qed.

(** A buffer that contains a pattern is at least as long. *)
Lemma contains_length (pat s : bytes) :
  contains pat s = true -> (List.length pat <= List.length s)%nat.
Proof.
  induction s as [|c s IH]; simpl; intros Hs.
  - rewrite orb_false_r in Hs. apply startswith_length in Hs. exact Hs.
  - apply orb_true_iff in Hs. destruct Hs as [Hs|Hs].
    + apply startswith_length in Hs. exact Hs.
    + apply IH in Hs. lia.
Qed.

Lemma nth_error_replace_same {A : Type} (i : nat) (x y : A) (l : list A) :
  nth_error (replace i x l) i = Some y -> y = x.
Proof.
  revert i. induction l as [|z l IH]; intros i; simpl.
  - destruct i; discriminate.
  - destruct i as [|i]; simpl; [congruence | apply IH].
Qed.

Section MoreProgramFacts.

Context `{E : Externals}.

(** *** Coroutines whose operations all satisfy a condition *)

Lemma all_ops_bind {A B : Type} (P : forall X : Type, op X -> Prop)
    (t : Task A) (f : A -> Task B) :
  all_ops P t -> (forall a, all_ops P (f a)) -> all_ops P (bind t f).
Proof.
  induction t as [a|e|X o k IH]; simpl; intros Ht Hf; auto.
  destruct Ht as [Ho Hk]. split; [exact Ho|]. intros x. apply IH; auto.
Qed.

Lemma all_ops_try_except {A : Type} (P : forall X : Type, op X -> Prop)
    (t : Task A) (h : exn -> Task A) :
  all_ops P t -> (forall e, all_ops P (h e)) -> all_ops P (try_except t h).
Proof.
  induction t as [a|e|X o k IH]; simpl; intros Ht Hh; auto.
  - destruct (is_Exception e); simpl; auto.
  - destruct Ht as [Ho Hk]. split; [exact Ho|]. intros x. apply IH; auto.
Qed.

Lemma all_ops_try_finally {A : Type} (P : forall X : Type, op X -> Prop)
    (t : Task A) (f : Task unit) :
  all_ops P t -> all_ops P f -> all_ops P (try_finally t f).
Proof.
  induction t as [a|e|X o k IH]; simpl; intros Ht Hf.
  - apply all_ops_bind; simpl; auto.
  - apply all_ops_bind; simpl; auto.
  - destruct Ht as [Ho Hk]. split; [exact Ho|]. intros x. apply IH; auto.
Qed.

(** [handle_client] satisfies a condition that each of its operations
    satisfies. *)
Lemma all_ops_handle_client (P : forall X : Type, op X -> Prop) (reader writer : handle) :
  (forall line, P _ (Print line)) ->
  P _ LoadLastTargets ->
  P _ (RadarSetTargets []) ->
  P _ (Sleep 200) ->
  P _ (StreamRead reader 1024) ->
  (forall data, P _ (StreamWrite writer data)) ->
  P _ (StreamClose writer) ->
  all_ops P (handle_client reader writer).
Proof.
  intros Hprint Hload Hset Hsleep Hread Hwrite Hclose.
  unfold handle_client.
  apply all_ops_try_finally; [|simpl; auto].
  apply all_ops_try_except; [|simpl; auto].
  apply all_ops_bind.
  - simpl. split; [exact Hread|]. intros [e|data]; exact I.
  - intros request. apply all_ops_bind.
    + unfold route.
      destruct (contains GET_data request); [simpl; auto|].
      destruct (contains GET_calibrate request); simpl; auto 10.
    + intros response. simpl. split; [apply Hwrite|]. intros [e|u]; exact I.
Qed.

(** A relation between states that every operation allowed by [P]
    respects is respected by a slice of a coroutine whose operations are
    all allowed, and what is left of the coroutine is of the same kind. *)
Lemma atomic_all_ops {A : Type} (P : forall X : Type, op X -> Prop)
    (R : World -> World -> Prop) (t : Task A) (w : World) :
  (forall w0, R w0 w0) ->
  (forall w0 w1 w2, R w0 w1 -> R w1 w2 -> R w0 w2) ->
  (forall (X : Type) (o : op X) w0, P X o -> R w0 (snd (perform o w0))) ->
  all_ops P t ->
  all_ops P (fst (atomic t w)) /\ R w (snd (atomic t w)).
Proof.
  intros Hrefl Htrans Hperform. revert w.
  induction t as [a|e|X o k IH]; intros w Ht; simpl; auto.
  destruct (suspends o); [simpl; auto|].
  destruct Ht as [Ho Hk].
  pose proof (Hperform X o w Ho) as Hp.
  destruct (perform o w) as [x w']. simpl in Hp.
  destruct (IH x w' (Hk x)) as [Hs Hr]. split; [exact Hs|].
  eapply Htrans; eauto.
Qed.

Lemma advance_all_ops {A : Type} (P : forall X : Type, op X -> Prop)
    (R : World -> World -> Prop) (t : Task A) (w : World) :
  (forall w0, R w0 w0) ->
  (forall w0 w1 w2, R w0 w1 -> R w1 w2 -> R w0 w2) ->
  (forall (X : Type) (o : op X) w0, P X o -> R w0 (snd (perform o w0))) ->
  all_ops P t ->
  all_ops P (fst (advance t w)) /\ R w (snd (advance t w)).
Proof.
  intros Hrefl Htrans Hperform Ht.
  destruct t as [a|e|X o k]; simpl; auto.
  destruct Ht as [Ho Hk].
  pose proof (Hperform X o w Ho) as Hp.
  destruct (perform o w) as [x w']. simpl in Hp.
  destruct (atomic_all_ops P R (k x) w' Hrefl Htrans Hperform (Hk x)) as [Hs Hr].
  split; [exact Hs|]. eapply Htrans; eauto.
Qed.

Lemma client_effect_refl (h : handle) (w : World) : client_effect h w w.
Proof. unfold client_effect. auto. Qed.

Lemma client_effect_trans (h : handle) (w0 w1 w2 : World) :
  client_effect h w0 w1 -> client_effect h w1 w2 -> client_effect h w0 w2.
Proof.
  unfold client_effect.
  intros (Hd1 & Hl1 & Ht1 & Hs1) (Hd2 & Hl2 & Ht2 & Hs2).
  split; [congruence|]. split; [congruence|]. split.
  - destruct Ht2 as [Ht2|Ht2]; [|right; exact Ht2].
    destruct Ht1 as [Ht1|Ht1]; [left|right]; congruence.
  - intros h' Hh'. rewrite Hs2, Hs1; auto.
Qed.

Lemma perform_client_op (h : handle) (X : Type) (o : op X) (w : World) :
  client_op h X o -> client_effect h w (snd (perform o w)).
Proof.
  unfold client_effect.
  destruct o; simpl; intros Ho; try contradiction; subst;
    try destruct (rfault (sockets w h));
    try destruct (wfault (sockets w h));
    simpl; repeat split; auto.
  all: intros h' Hh'; apply Nat.eqb_neq in Hh'; rewrite Hh'; reflexivity.
Qed.

Lemma client_op_handle_client (h : handle) : all_ops (client_op h) (handle_client h h).
Proof. apply all_ops_handle_client; simpl; auto. Qed.

Lemma step_keeps_to_themselves (l : label) (s s' : System) :
  step l s s' -> clients_keep_to_themselves s -> clients_keep_to_themselves s'.
Proof.
  intros Hstep Hs. unfold clients_keep_to_themselves in *.
  destruct Hstep as [s|s c h|s i t Ht]; cbn [clients].
  - exact Hs.
  - intros j t Hj.
    destruct (Nat.lt_ge_cases j (List.length (clients s))) as [Hlt|Hge].
    + rewrite nth_error_app1 in Hj by exact Hlt. apply Hs. exact Hj.
    + rewrite nth_error_app2 in Hj by exact Hge.
      destruct (j - List.length (clients s))%nat as [|n] eqn:Hn; simpl in Hj.
      * injection Hj as <-. assert (j = h) as -> by (subst h; lia).
        apply client_op_handle_client.
      * destruct n; discriminate.
  - intros j t' Hj. destruct (Nat.eq_dec j i) as [->|Hji].
    + apply nth_error_replace_same in Hj. subst t'.
      apply (advance_all_ops (client_op i) (client_effect i)).
      * apply client_effect_refl.
      * apply client_effect_trans.
      * intros X o w0. apply perform_client_op.
      * apply Hs. exact Ht.
    + rewrite nth_error_replace_other in Hj by exact Hji. apply Hs. exact Hj.
Qed.

Lemma steps_keeps_to_themselves (ls : list label) (s s' : System) :
  steps ls s s' -> clients_keep_to_themselves s -> clients_keep_to_themselves s'.
Proof.
  induction 1 as [s|l ls s1 s2 s3 Hstep _ IH]; intros Hs; [exact Hs|].
  apply IH. eapply step_keeps_to_themselves; eauto.
Qed.

Lemma reachable_keeps_to_themselves (s : System) :
  reachable s -> clients_keep_to_themselves s.
Proof.
  intros (r & socks & ls & Hsteps).
  eapply steps_keeps_to_themselves; [exact Hsteps|].
  intros i t Hi. destruct i; discriminate.
Qed.

(** The effect of a slice of the [i]-th [handle_client]. *)
Lemma step_client_effect (i : nat) (s s' : System) :
  reachable s -> step (Client i) s s' -> client_effect i (globals s) (globals s').
Proof.
  intros Hs Hstep. apply reachable_keeps_to_themselves in Hs.
  inversion Hstep as [| |s0 i0 t Ht]; subst. cbn [globals].
  apply (advance_all_ops (client_op i) (client_effect i)).
  - apply client_effect_refl.
  - apply client_effect_trans.
  - intros X o w0. apply perform_client_op.
  - apply Hs. exact Ht.
Qed.

(** X8.  In the running program a slice of a [handle_client] never calls
    [radar.update()]: it leaves the internals of the driver as they were,
    and [radar.targets] either as it was or empty. *)
Theorem clients_spare_the_driver (i : nat) (s s' : System) :
  reachable s -> step (Client i) s s' ->
  dev (radar (globals s')) = dev (radar (globals s))
  /\ (targets (radar (globals s')) = targets (radar (globals s))
      \/ targets (radar (globals s')) = []).
Proof.
  intros Hs Hstep.
  destruct (step_client_effect i s s' Hs Hstep) as (Hdev & _ & Htargets & _). auto.
Qed.

(** X9.  In the running program a slice of the [handle_client] of one
    connection leaves the socket and the coroutine of every other
    connection as they were, and a poll leaves every socket and every
    coroutine as it was. *)
Theorem connections_are_isolated :
  (forall (i : nat) (s s' : System),
      reachable s -> step (Client i) s s' ->
      (forall h, h <> i -> sockets (globals s') h = sockets (globals s) h)
      /\ (forall j, j <> i -> nth_error (clients s') j = nth_error (clients s) j))
  /\ (forall s s' : System,
        step Poll s s' ->
        (forall h, sockets (globals s') h = sockets (globals s) h)
        /\ clients s' = clients s).
Proof.
  split.
  - intros i s s' Hs Hstep. split.
    + apply (step_client_effect i s s' Hs Hstep).
    + intros j Hj. apply (step_client_others i j s s' Hstep Hj).
  - intros s s' Hstep. inversion Hstep; subst. cbn [globals clients].
    rewrite sensor_iteration_atomic, sensor_iteration_final.
    destruct (fst (update (radar (globals s)))); split; reflexivity.
Qed.

(** *** Polls *)

Lemma polls_S_first (n : nat) (w : World) :
  polls (S n) w = polls n (final (run sensor_task_iteration w)).
Proof.
  unfold polls.
  change (sensor_task (S n)) with (bind sensor_task_iteration (fun _ => sensor_task n)).
  rewrite run_bind.
  destruct (result (run sensor_task_iteration w)) as [e|u] eqn:Hres; [|reflexivity].
  exfalso. unfold sensor_task_iteration in Hres. simpl in Hres.
  destruct (update (radar w)) as [[|] r]; discriminate.
Qed.

(** One more iteration of the loop is one more poll. *)
Lemma polls_S_last (n : nat) (w : World) :
  polls (S n) w = final (run sensor_task_iteration (polls n w)).
Proof.
  revert w. induction n as [|n IH]; intros w.
  - rewrite polls_S_first. reflexivity.
  - rewrite polls_S_first, IH, <- polls_S_first. reflexivity.
Qed.

(** X11.  Over [n] iterations of the loop of [sensor_task] the driver is
    changed by its own [update()] only; [last_targets] is what it was
    before the loop when no iteration found a new frame, and otherwise the
    image of the slots as the latest iteration that found one left them,
    whatever the iterations before it published. *)
Theorem latest_frame_wins (n : nat) (w : World) :
  radar (polls (S n) w) = snd (update (radar (polls n w)))
  /\ ((forall k, (k < n)%nat -> fst (update (radar (polls k w))) = false) ->
      last_targets (polls n w) = last_targets w)
  /\ (forall k,
        (k < n)%nat ->
        fst (update (radar (polls k w))) = true ->
        (forall j, (k < j < n)%nat -> fst (update (radar (polls j w))) = false) ->
        last_targets (polls n w)
        = map (to_display fmt) (filter has_target (targets (radar (polls (S k) w))))).
Proof.
  assert (Hradar : forall m, radar (polls (S m) w) = snd (update (radar (polls m w)))).
  { intros m. rewrite polls_S_last, sensor_iteration_final.
    destruct (fst (update (radar (polls m w)))); reflexivity. }
  split; [apply Hradar|]. split.
  - induction n as [|n IH]; intros Hstale; [reflexivity|].
    rewrite polls_S_last, sensor_iteration_final, (Hstale n) by lia.
    simpl. apply IH. intros k Hk. apply Hstale. lia.
  - induction n as [|n IH]; intros k Hk Hfresh Hstale; [lia|].
    destruct (Nat.eq_dec k n) as [->|Hkn].
    + rewrite Hradar, polls_S_last, sensor_iteration_final, Hfresh. simpl.
      apply list_comp_map_filter.
    + rewrite polls_S_last, sensor_iteration_final, (Hstale n) by lia.
      simpl. apply IH; [lia | exact Hfresh|].
      intros j Hj. apply Hstale. lia.
Qed.

(** *** The snapshot, in every state of the program *)

Lemma steps_snapshot_image (ls : list label) (s s' : System) :
  steps ls s s' ->
  Forall store_free (clients s) ->
  (exists ts, last_targets (globals s) = map (to_display fmt) (filter has_target ts)) ->
  exists ts, last_targets (globals s') = map (to_display fmt) (filter has_target ts).
Proof.
  induction 1 as [s|l ls s1 s2 s3 Hstep _ IH]; intros Hfree Himage; [exact Himage|].
  apply IH; [eapply step_store_free; eauto|].
  destruct (step_last_targets l s1 s2 Hfree Hstep) as [[-> Hfresh]|Hsame].
  - inversion Hstep; subst. cbn [globals].
    rewrite sensor_iteration_atomic, sensor_iteration_final, Hfresh. simpl.
    eexists. apply list_comp_map_filter.
  - rewrite Hsame. exact Himage.
Qed.

(** X10.  In every state the program can reach, whatever the scheduling,
    [last_targets] is the image of the slots with a positive distance of
    some list of slots: each of its entries is the display of a slot
    whose distance is above zero. *)
Theorem every_snapshot_is_the_image_of_a_frame (s : System) :
  reachable s ->
  (exists ts, last_targets (globals s) = map (to_display fmt) (filter has_target ts))
  /\ forall d, In d (last_targets (globals s)) ->
               exists t, 0 < Target.distance t /\ d = to_display fmt t.
Proof.
  intros (r & socks & ls & Hsteps).
  assert (Himage : exists ts,
             last_targets (globals s) = map (to_display fmt) (filter has_target ts)).
  { eapply steps_snapshot_image; [exact Hsteps | constructor|].
    exists []. reflexivity. }
  split; [exact Himage|].
  destruct Himage as [ts Hts]. intros d Hd. rewrite Hts in Hd.
  apply in_map_iff in Hd. destruct Hd as (t & <- & Ht).
  apply filter_In in Ht. destruct Ht as [_ Ht].
  exists t. split; [|reflexivity]. unfold has_target in Ht. apply Z.ltb_lt. exact Ht.
Qed.

(** *** Calibration and polls *)

(** X12.  The sleep of [calibrate] does not hold [sensor_task] back.  When
    a poll runs during it and finds a new frame, then at the return of
    [calibrate] [radar.targets] is what the driver decoded, not the empty
    list [calibrate] assigned, and its image is already published. *)
Theorem poll_in_the_sleep_undoes_the_reset (w : World) :
  let w1 := snd (atomic calibrate w) in
  let w2 := snd (atomic sensor_task_iteration w1) in
  let t3 := fst (advance (fst (atomic calibrate w)) w2) in
  let w3 := snd (advance (fst (atomic calibrate w)) w2) in
  fst (update (radar w1)) = true ->
  targets (radar w1) = []
  /\ t3 = Ret tt
  /\ targets (radar w3) = targets (snd (update (radar w1)))
  /\ last_targets w3
     = map (to_display fmt) (filter has_target (targets (snd (update (radar w1))))).
Proof.
  intros w1 w2 t3 w3 Hfresh.
  split; [reflexivity|]. split; [reflexivity|].
  assert (Hw3 : w3 = w2) by reflexivity.
  rewrite Hw3. subst w2.
  rewrite sensor_iteration_atomic, sensor_iteration_final, Hfresh. simpl.
  split; [reflexivity|]. apply list_comp_map_filter.
Qed.

(** *** One connection *)

Local Opaque firstn skipn.
Local Arguments json_response : simpl never.
Local Arguments calibrated_response : simpl never.
Local Arguments html_response : simpl never.
Local Arguments String.append : simpl never.

Ltac by_cases :=
  repeat (simpl; rewrite ?Nat.eqb_refl;
          try match goal with
              | H : ?x = _ |- context [match ?x with _ => _ end] => rewrite H
              | H : ?x = _ |- context [if ?x then _ else _] => rewrite H
              end).

Ltac split_cases :=
  repeat (simpl;
          match goal with
          | |- context [match rfault ?c with _ => _ end] => destruct (rfault c)
          | |- context [match wfault ?c with _ => _ end] => destruct (wfault c)
          | |- context [if contains ?p ?r then _ else _] => destruct (contains p r)
          | |- context [if Nat.eqb ?a ?b then _ else _] => destruct (Nat.eqb a b)
          end).

(** What [handle_client] does to its socket, and its stream operations. *)
Lemma handle_client_io (h : handle) (w : World) :
  let c := sockets w h in
  let r := run (handle_client h h) w in
  rx (sockets (final r) h)
  = match rfault c with Some _ => rx c | None => skipn 1024 (rx c) end
  /\ rfault (sockets (final r) h) = rfault c
  /\ wfault (sockets (final r) h) = wfault c
  /\ count is_read (trace r) = 1%nat
  /\ count is_write (trace r) = match rfault c with Some _ => 0%nat | None => 1%nat end
  /\ count is_close (trace r) = 1%nat
  /\ trace r = (removelast (trace r) ++ [Event (StreamClose h) tt])%list.
Proof.
  intros c r. subst r. unfold handle_client, route.
  destruct (rfault c) as [errno|] eqn:Hr; subst c; by_cases.
  - repeat split; auto.
  - set (request := firstn 1024 (rx (sockets w h))).
    destruct (wfault (sockets w h)) as [errno|] eqn:Hw;
      destruct (contains GET_data request) eqn:Hd;
      [ | destruct (contains GET_calibrate request) eqn:Hc
        | | destruct (contains GET_calibrate request) eqn:Hc ];
      by_cases.
    all: repeat split; auto.
Qed.

(** X1.  [handle_client] reads once, at most 1024 bytes.  When the peer
    has sent more, the response is the one of the first 1024 bytes alone,
    and what follows them is left unread on the socket, which is closed. *)
Theorem only_the_first_1024_bytes_are_read
    (h : handle) (w : World) (request rest : bytes) :
  rfault (sockets w h) = None ->
  wfault (sockets w h) = None ->
  rx (sockets w h) = (request ++ rest)%list ->
  List.length request = 1024%nat ->
  let r := run (handle_client h h) w in
  (exists response,
      result (run (route request) w) = inr response
      /\ tx (sockets (final r) h) = (tx (sockets w h) ++ [response])%list)
  /\ rx (sockets (final r) h) = rest
  /\ closed (sockets (final r) h) = true.
Proof.
  intros Hr Hw Hrx Hlen r.
  assert (Hfirst : firstn 1024 (rx (sockets w h)) = request).
  { rewrite Hrx, <- Hlen, firstn_app, Nat.sub_diag, firstn_all. simpl. apply app_nil_r. }
  assert (Hskip : skipn 1024 (rx (sockets w h)) = rest).
  { rewrite Hrx, <- Hlen, skipn_app, Nat.sub_diag, skipn_all. reflexivity. }
  destruct (handle_client_outcome h w) as (_ & Hclosed & _ & _ & Hcase).
  destruct (handle_client_io h w) as (Hrest & _).
  rewrite Hr, Hw, Hfirst in Hcase. rewrite Hr, Hskip in Hrest.
  destruct Hcase as (_ & _ & response & Hrouted & Htx & _).
  split; [exists response; split; assumption|].
  split; [exact Hrest | exact Hclosed].
Qed.

(** X2.  A read that yields fewer than 9 bytes, the length of
    [GET /data], gets the HTML page whatever the bytes are: the driver is
    left as it was and nothing is printed. *)
Theorem short_buffer_gets_the_page (h : handle) (w : World) :
  rfault (sockets w h) = None ->
  wfault (sockets w h) = None ->
  (List.length (rx (sockets w h)) < 9)%nat ->
  tx (sockets (final (run (handle_client h h) w)) h)
  = (tx (sockets w h) ++ [html_response])%list
  /\ radar (final (run (handle_client h h) w)) = radar w
  /\ printed (trace (run (handle_client h h) w)) = [].
Proof.
  intros Hr Hw Hlen.
  set (request := firstn 1024 (rx (sockets w h))).
  assert (Hshort : (List.length request < 9)%nat).
  { subst request. rewrite length_firstn. lia. }
  assert (Hd : contains GET_data request = false).
  { destruct (contains GET_data request) eqn:Hd; [|reflexivity].
    apply contains_length in Hd. simpl in Hd. lia. }
  assert (Hc : contains GET_calibrate request = false).
  { destruct (contains GET_calibrate request) eqn:Hc; [|reflexivity].
    apply contains_length in Hc. simpl in Hc. lia. }
  destruct (handle_client_outcome h w) as (_ & _ & _ & _ & Hcase).
  rewrite Hr, Hw in Hcase. fold request in Hcase.
  destruct Hcase as (Hradar & _ & response & Hrouted & Htx & Hprinted).
  rewrite run_route, Hd, Hc in Hrouted, Hradar, Hprinted.
  simpl in Hrouted, Hradar, Hprinted. injection Hrouted as <-. auto.
Qed.

(** X3.  What a connection prints: the two lines of [calibrate] when the
    request is routed to it, and then one line [Client error: ...] with
    the error of the socket when the read or the write fails; nothing
    else.  A read that fails prints the error line alone. *)
Theorem what_a_connection_logs (h : handle) (w : World) :
  let c := sockets w h in
  let request := firstn 1024 (rx c) in
  let r := run (handle_client h h) w in
  let calibration :=
    if contains GET_data request then []
    else if contains GET_calibrate request
         then ["Calibration started..."; "Calibration complete."]
         else [] in
  printed (trace r)
  = match rfault c, wfault c with
    | Some errno, _ => ["Client error: " ++ str (OSError errno)]
    | None, Some errno =>
        (calibration ++ [("Client error: " ++ str (OSError errno))%string])%list
    | None, None => calibration
    end.
Proof.
  intros c request r calibration.
  destruct (handle_client_outcome h w) as (_ & _ & _ & _ & Hcase).
  fold c request r in Hcase.
  assert (Hrouted : printed (trace (run (route request) w)) = calibration).
  { rewrite run_route. subst calibration.
    destruct (contains GET_data request); [reflexivity|].
    destruct (contains GET_calibrate request); reflexivity. }
  destruct (rfault c) as [errno|].
  - destruct Hcase as (_ & _ & _ & Hprinted). exact Hprinted.
  - destruct Hcase as (_ & _ & Hcase). destruct (wfault c) as [errno|].
    + destruct Hcase as (_ & Hprinted). rewrite Hprinted, Hrouted. reflexivity.
    + destruct Hcase as (response & _ & _ & Hprinted). rewrite Hprinted. exact Hrouted.
Qed.

(** X4.  The calibration is done before its acknowledgement is written:
    when the write fails, [radar.targets] has been emptied all the same,
    once, and the connection ends as any other, closed and without an
    exception. *)
Theorem calibration_outlives_a_failed_write (h : handle) (w : World) (errno : Z) :
  rfault (sockets w h) = None ->
  wfault (sockets w h) = Some errno ->
  let request := firstn 1024 (rx (sockets w h)) in
  let r := run (handle_client h h) w in
  contains GET_data request = false ->
  contains GET_calibrate request = true ->
  result r = inr tt
  /\ targets (radar (final r)) = []
  /\ resets (trace r) = 1%nat
  /\ tx (sockets (final r) h) = tx (sockets w h)
  /\ closed (sockets (final r) h) = true.
Proof.
  intros Hr Hw request r Hd Hc.
  destruct (handle_client_outcome h w) as (Hres & Hclosed & _ & _ & Hcase).
  rewrite Hr, Hw in Hcase. fold request r in Hcase.
  destruct Hcase as (Hradar & Hresets & Htx & _).
  rewrite run_route, Hd, Hc in Hradar, Hresets. simpl in Hradar, Hresets.
  split; [exact Hres|]. split; [rewrite Hradar; reflexivity|].
  split; [exact Hresets|]. split; [exact Htx | exact Hclosed].
Qed.

(** X5.  [except Exception] does not catch what is not an [Exception]:
    when the body of the [try] raises such an exception, [CancelledError]
    say, it comes out of [handle_client], after the [finally] has closed
    the stream, and no [Client error] line is printed. *)
Theorem base_exception_passes_after_the_close
    (h : handle) (body : Task unit) (w : World) (e : exn) :
  result (run body w) = inl e ->
  is_Exception e = false ->
  let g := run (try_finally
                  (try_except body (fun e => print ("Client error: " ++ str e)))
                  (aclose h)) w in
  result g = inl e
  /\ closed (sockets (final g) h) = true
  /\ printed (trace g) = printed (trace (run body w))
  /\ forall h', h' <> h -> sockets (final g) h' = sockets (final (run body w)) h'.
Proof.
  intros Hres He g. subst g.
  rewrite run_try_finally, run_try_except, Hres, He. simpl.
  rewrite Nat.eqb_refl. split; [reflexivity|]. split; [reflexivity|]. split.
  - unfold printed. rewrite flat_map_app. simpl. apply app_nil_r.
  - intros h' Hh'. apply Nat.eqb_neq in Hh'. rewrite Hh'. reflexivity.
Qed.

(** X6.  Whatever the socket does, [handle_client] reads once, attempts
    one write when the read succeeds and none when it fails, and closes
    once, as its last operation: nothing is read or written after the
    close, and no connection is kept alive. *)
Theorem one_read_one_write_one_close (h : handle) (w : World) :
  let r := run (handle_client h h) w in
  count is_read (trace r) = 1%nat
  /\ count is_write (trace r)
     = match rfault (sockets w h) with Some _ => 0%nat | None => 1%nat end
  /\ count is_close (trace r) = 1%nat
  /\ trace r = (removelast (trace r) ++ [Event (StreamClose h) tt])%list.
Proof.
  intros r.
  destruct (handle_client_io h w) as (_ & _ & _ & Hreads & Hwrites & Hcloses & Hlast).
  auto.
Qed.

(** X7.  [handle_client] has at most four suspension points on any path.
    Scheduled four times it has returned, normally, whatever the request
    and the faults of the socket, and whatever the other coroutines made
    of the shared state between its slices ([w1] to [w4] are the states
    it wakes up in). *)
Theorem handle_client_finishes_in_four_slices (h : handle) (w1 w2 w3 w4 : World) :
  let t1 := fst (advance (handle_client h h) w1) in
  let t2 := fst (advance t1 w2) in
  let t3 := fst (advance t2 w3) in
  let t4 := fst (advance t3 w4) in
  t4 = Ret tt.
Proof.
  unfold handle_client, route. split_cases; reflexivity.
Qed.

End MoreProgramFacts.

(** X14.  The comprehension tests the raw distance, not the rounded
    range: a slot 1 to 5 mm away is kept, and its range is displayed as
    [0.0], in single and in double precision. *)
Theorem near_targets_display_range_zero (d : Z) (angle : spec_float) (speed : Z) :
  0 < d <= 5 ->
  has_target (Target.Make d angle speed) = true
  /\ DisplayTarget.range (to_display binary32 (Target.Make d angle speed)) = S754_zero false
  /\ DisplayTarget.range (to_display binary64 (Target.Make d angle speed)) = S754_zero false.
Proof.
  intros Hd.
  assert (Hcases : d = 1 \/ d = 2 \/ d = 3 \/ d = 4 \/ d = 5) by lia.
  destruct Hcases as [->|[->|[->|[->| ->]]]]; repeat split; vm_compute; reflexivity.
Qed.

(* ===================================================================== *)
(** ** Facts about the start-up *)
(* ===================================================================== *)

Lemma wifi_wait_some (isconnected : nat -> bool) (fuel calls k : nat) :
  WiFi.wait isconnected calls fuel = Some k <->
  (calls <= k < calls + fuel)%nat
  /\ isconnected k = true
  /\ forall j, (calls <= j < k)%nat -> isconnected j = false.
Proof.
  revert calls. induction fuel as [|fuel IH]; intros calls; simpl.
  - split; [discriminate|]. intros [Hk _]. lia.
  - destruct (isconnected calls) eqn:Hc.
    + split.
      * intros [= <-]. split; [lia|]. split; [exact Hc|]. intros j Hj. lia.
      * intros (Hk & Hconn & Hnot).
        destruct (Nat.eq_dec k calls) as [->|Hne]; [reflexivity|].
        rewrite (Hnot calls) in Hc by lia. discriminate.
    + rewrite IH. split.
      * intros (Hk & Hconn & Hnot). split; [lia|]. split; [exact Hconn|].
        intros j Hj. destruct (Nat.eq_dec j calls) as [->|Hne]; [exact Hc|].
        apply Hnot. lia.
      * intros (Hk & Hconn & Hnot).
        assert (k <> calls) by (intros ->; congruence).
        split; [lia|]. split; [exact Hconn|]. intros j Hj. apply Hnot. lia.
Qed.

Lemma wifi_wait_none (isconnected : nat -> bool) (fuel calls : nat) :
  WiFi.wait isconnected calls fuel = None ->
  forall j, (calls <= j < calls + fuel)%nat -> isconnected j = false.
Proof.
  revert calls. induction fuel as [|fuel IH]; intros calls Hnone j Hj; [lia|].
  simpl in Hnone. destruct (isconnected calls) eqn:Hc; [discriminate|].
  destruct (Nat.eq_dec j calls) as [->|Hne]; [exact Hc|].
  apply (IH (S calls) Hnone). lia.
Qed.

(** X15.  The module waits for the link before it starts anything.  The
    loop ends at the first call of [wlan.isconnected()] that answers
    [True], having slept 0.5 s after each of the calls before it, all of
    which answered [False]; it ends if some call answers [True]; and if
    none does it never ends, for there is no timeout. *)
Theorem start_up_waits_for_the_link (isconnected : nat -> bool) :
  (forall fuel k,
      WiFi.wait isconnected 0 fuel = Some k <->
      (k < fuel)%nat /\ isconnected k = true
      /\ forall j, (j < k)%nat -> isconnected j = false)
  /\ (forall k, isconnected k = true ->
                exists k', (k' <= k)%nat /\ WiFi.wait isconnected 0 (S k) = Some k')
  /\ ((forall k, isconnected k = false) ->
      forall fuel, WiFi.wait isconnected 0 fuel = None).
Proof.
  split; [|split].
  - intros fuel k. rewrite wifi_wait_some. split.
    + intros (Hk & Hconn & Hnot). split; [lia|]. split; [exact Hconn|].
      intros j Hj. apply Hnot. lia.
    + intros (Hk & Hconn & Hnot). split; [lia|]. split; [exact Hconn|].
      intros j Hj. apply Hnot. lia.
  - intros k Hk.
    destruct (WiFi.wait isconnected 0 (S k)) as [k'|] eqn:Hwait.
    + exists k'. split; [|reflexivity]. apply wifi_wait_some in Hwait. lia.
    + exfalso. rewrite (wifi_wait_none _ _ _ Hwait k) in Hk by lia. discriminate.
  - intros Hnever fuel. generalize 0%nat.
    induction fuel as [|fuel IH]; intros calls; simpl; [reflexivity|].
    rewrite Hnever. apply IH.
Qed.

(* ===================================================================== *)
(** ** Facts about the script of the page *)
(* ===================================================================== *)

(** X16.  Whatever the reply to [fetch('/data')], [fetchData] leaves
    [targets] an array and sets one timer of 100 ms for the next fetch.
    A fetch that fails, and a reply that is [null], empty [targets] and
    write one error to the console; an object whose [targets] is an array
    makes that array the new [targets]; and no reply other than [null]
    writes an error. *)
Theorem fetchData_leaves_an_array_and_rearms
    (reply : Page.error + Page.value) (st : Page.state) :
  let st' := Page.fetchData reply st in
  Page.isArray (Page.targets st') = true
  /\ Page.timers st' = (Page.timers st ++ [100])%list
  /\ (forall e, reply = inl e ->
        Page.targets st' = Page.Arr []
        /\ Page.errors st' = (Page.errors st ++ [e])%list)
  /\ (reply = inr Page.Null \/ reply = inr Page.Undefined ->
        Page.targets st' = Page.Arr []
        /\ Page.errors st' = (Page.errors st ++ [Page.TypeError])%list)
  /\ (forall fields items,
        reply = inr (Page.Obj fields) ->
        Page.field "targets" fields = Page.Arr items ->
        Page.targets st' = Page.Arr items /\ Page.errors st' = Page.errors st)
  /\ (forall data,
        reply = inr data -> data <> Page.Null -> data <> Page.Undefined ->
        Page.errors st' = Page.errors st).
Proof.
  intros st'. subst st'. split; [|split; [|split; [|split; [|split]]]].
  - destruct reply as [e|data]; [reflexivity|].
    destruct data as [| |v|x|s|items|fields]; try reflexivity.
    unfold Page.fetchData. simpl.
    destruct (Page.field "targets" fields) as [| |v|x|s|items|fs] eqn:Hts; simpl;
      try reflexivity;
      destruct (Page.truthy (Page.field "target" fields)); reflexivity.
  - unfold Page.fetchData.
    repeat match goal with |- context [match ?x with _ => _ end] => destruct x end;
      reflexivity.
  - intros e ->. split; reflexivity.
  - intros [-> | ->]; split; reflexivity.
  - intros fields items -> Hts. unfold Page.fetchData. simpl. rewrite Hts. simpl.
    split; reflexivity.
  - intros data -> Hnull Hundef. unfold Page.fetchData.
    destruct data as [| |v|x|s|items|fields]; try congruence; try reflexivity.
    simpl. destruct (Page.isArray (Page.field "targets" fields)); [reflexivity|].
    destruct (Page.truthy (Page.field "target" fields)); reflexivity.
Qed.


(** X18.  The colour of the target number [i] is always defined: it is
    one of the three of [colors], the same for [i] and [i + 3], and equal
    for two targets exactly when their numbers agree modulo 3.  Each of
    its three pairs of digits is read by [parseInt] as a number from 0
    to 255, never as [NaN]. *)
Theorem trail_colour_is_well_formed (i : nat) :
  exists (c : string) (r g b : Z),
    Page.color i = Some c
    /\ In c Page.colors
    /\ Page.trail_rgb i = Some (Some r, Some g, Some b)
    /\ 0 <= r <= 255 /\ 0 <= g <= 255 /\ 0 <= b <= 255
    /\ Page.color (i + 3) = Page.color i
    /\ forall j, Page.color j = Page.color i <-> (j mod 3 = i mod 3)%nat.
Proof.
  assert (Hperiod : Page.color (i + 3) = Page.color i).
  { unfold Page.color. change (List.length Page.colors) with 3%nat.
    replace (i + 3)%nat with (i + 1 * 3)%nat by lia.
    rewrite Nat.Div0.mod_add. reflexivity. }
  assert (Hsame : forall j, Page.color j = Page.color i <-> (j mod 3 = i mod 3)%nat).
  { intros j. unfold Page.color. change (List.length Page.colors) with 3%nat.
    pose proof (Nat.mod_upper_bound i 3 ltac:(lia)) as Hi.
    pose proof (Nat.mod_upper_bound j 3 ltac:(lia)) as Hj.
    destruct (i mod 3)%nat as [|[|[|n]]]; try lia;
      destruct (j mod 3)%nat as [|[|[|m]]]; try lia;
      split; intros H; try reflexivity; try discriminate. }
  unfold Page.trail_rgb, Page.color in *. change (List.length Page.colors) with 3%nat in *.
  pose proof (Nat.mod_upper_bound i 3 ltac:(lia)) as Hi.
  destruct (i mod 3)%nat as [|[|[|n]]]; try lia.
  - exists "#FF0000", 255, 0, 0. simpl. repeat split; auto; try lia; apply Hsame.
  - exists "#0080FF", 0, 128, 255. simpl. repeat split; auto; try lia; apply Hsame.
  - exists "#B400FF", 180, 0, 255. simpl. repeat split; auto; try lia; apply Hsame.
Qed.

(* ===================================================================== *)
(** ** The theorems at work on the scripted driver *)
(* ===================================================================== *)

#[local] Existing Instance Scripted.E32.


(** A frame with an empty slot and a target: the snapshot holds the target
    alone. *)
Lemma empty_slot_is_dropped :
  let w := globals (Scripted.started (Scripted.peer "GET /data")) in
  fst (update (radar w)) = true
  /\ last_targets (final (run sensor_task_iteration w))
     = [to_display binary32 (Scripted.slot_4m binary32)].
Proof.
  intros w. split; [reflexivity|].
  destruct (snapshot_is_the_present_targets w eq_refl) as (Hsnap & _).
  exact Hsnap.
Defined.

(** A poll without a new frame, after one with a frame: the snapshot
    stays. *)
Lemma stale_poll_keeps_the_snapshot :
  let w := globals (Scripted.polled (Scripted.peer "GET /data")) in
  fst (update (radar w)) = false
  /\ last_targets w = [to_display binary32 (Scripted.slot_4m binary32)]
  /\ last_targets (final (run sensor_task_iteration w)) = last_targets w.
Proof.
  intros w. split; [reflexivity|]. split; [reflexivity|].
  exact (proj1 (proj1 snapshot_replaced_only_on_new_data w eq_refl)).
Defined.

(** The two polled states are reached as the scheduler runs. *)
Lemma polled_reachable (c : Conn) : reachable (Scripted.polled c).
Proof.
  exists (mkRadar [] [Some [Scripted.slot_empty; Scripted.slot_4m binary32]; None]).
  exists (fun _ => c). exists [Poll].
  eapply steps_cons; [apply step_poll | apply steps_nil].
Qed.

Lemma polled_again_idle (c : Conn) :
  idle_steps (Scripted.polled c) (Scripted.polled_again c).
Proof.
  eapply idle_cons; [apply step_poll | reflexivity | apply idle_nil].
Qed.

(** [GET /data] right after the start, a poll without a frame having run:
    the body is the empty list of targets. *)
Lemma first_data_request_is_empty :
  let r0 := mkRadar (Dev := Scripted.Script) [] [None] in
  let c := Scripted.peer "GET /data HTTP/1.0" in
  let s := mkSystem (snd (atomic sensor_task_iteration (globals (boot r0 (fun _ => c)))))
                    [] in
  (idle_steps (boot r0 (fun _ => c)) s
   /\ contains GET_data (firstn 1024 (rx (sockets (globals s) 0%nat))) = true)
  /\ tx (sockets (final (run (handle_client 0%nat 0%nat) (globals s))) 0%nat)
     = [json_response []].
Proof.
  intros r0 c s.
  assert (Hidle : idle_steps (boot r0 (fun _ => c)) s).
  { eapply idle_cons; [apply step_poll | reflexivity | apply idle_nil]. }
  split; [split; [exact Hidle | reflexivity]|].
  destruct (data_before_first_publish_is_empty (E := Scripted.E32)
              r0 (fun _ => c) s 0%nat Hidle eq_refl)
    as (_ & _ & _ & _ & Htx).
  exact (Htx eq_refl eq_refl).
Defined.

(** Two [GET /data] with a poll without a frame in between: the same
    response, which shows the target. *)
Lemma two_data_requests_agree :
  let c := Scripted.peer "GET /data HTTP/1.0" in
  let s1 := Scripted.polled c in
  let s2 := Scripted.polled_again c in
  (reachable s1 /\ idle_steps s1 s2)
  /\ tx (sockets (final (run (handle_client 0%nat 0%nat) (globals s1))) 0%nat)
     = [json_response [to_display binary32 (Scripted.slot_4m binary32)]]
  /\ tx (sockets (final (run (handle_client 0%nat 0%nat) (globals s2))) 0%nat)
     = [json_response [to_display binary32 (Scripted.slot_4m binary32)]].
Proof.
  intros c s1 s2.
  split; [split; [apply polled_reachable | apply polled_again_idle]|].
  destruct (data_requests_repeat s1 s2 0%nat 0%nat
              (polled_reachable c) (polled_again_idle c)
              eq_refl eq_refl eq_refl eq_refl eq_refl eq_refl)
    as (response & -> & Htx1 & Htx2 & _).
  split; [exact Htx1 | exact Htx2].
Defined.


(** Two buffers that contain [GET /data], one at its start and one in the
    middle, are routed alike. *)
Lemma same_patterns_same_route :
  (contains GET_data (b "GET /data HTTP/1.0") = contains GET_data (b "HEAD /?q=GET /data")
   /\ contains GET_calibrate (b "GET /data HTTP/1.0")
      = contains GET_calibrate (b "HEAD /?q=GET /data"))
  /\ route (b "GET /data HTTP/1.0") = route (b "HEAD /?q=GET /data").
Proof.
  split; [split; reflexivity|].
  exact (proj1 route_is_decided_by_containment _ _ eq_refl eq_refl).
Defined.

(** A connection whose read fails with [ECONNRESET], then a healthy one
    asking for the page. *)
Lemma reset_connection_then_a_healthy_one :
  let w := mkWorld (mkRadar (Dev := Scripted.Script) [Scripted.slot_4m binary32] []) []
             (fun h => if Nat.eqb h 0 then Scripted.broken_peer
                       else Scripted.peer "GET / HTTP/1.0") in
  let r := run (handle_client 0%nat 0%nat) w in
  (rfault (sockets w 0%nat) <> None /\ 1%nat <> 0%nat)
  /\ result r = inr tt
  /\ closed (sockets (final r) 0%nat) = true
  /\ radar (final r) = radar w
  /\ tx (sockets (final r) 0%nat) = []
  /\ tx (sockets (final (run (handle_client 1%nat 1%nat) (final r))) 1%nat)
     = [html_response].
Proof.
  intros w r.
  assert (Hfault : rfault (sockets w 0%nat) <> None) by discriminate.
  assert (Hother : 1%nat <> 0%nat) by discriminate.
  split; [split; assumption|].
  destruct (connection_faults_are_contained 0%nat w)
    as ((Hres & Hclosed & _) & Hread & _ & Hnext & _).
  destruct (Hread Hfault) as (Hradar & Htx).
  destruct (Hnext 1%nat Hother) as (_ & _ & _ & Htx2).
  split; [exact Hres|]. split; [exact Hclosed|].
  split; [exact Hradar|]. split; [exact Htx|].
  exact (eq_trans Htx2 eq_refl).
Defined.

(** A buffer with both patterns, [GET /calibrate] first: the JSON response
    is written and the driver keeps its target. *)
Lemma both_patterns_serve_data :
  let w := Scripted.world binary32 [Scripted.slot_4m binary32] [] []
             (Scripted.peer "GET /calibrate?then=GET /data HTTP/1.0") in
  let r := run (handle_client 0%nat 0%nat) w in
  (rfault (sockets w 0%nat) = None /\ wfault (sockets w 0%nat) = None
   /\ contains GET_data (firstn 1024 (rx (sockets w 0%nat))) = true
   /\ contains GET_calibrate (firstn 1024 (rx (sockets w 0%nat))) = true)
  /\ tx (sockets (final r) 0%nat) = [json_response []]
  /\ targets (radar (final r)) = [Scripted.slot_4m binary32].
Proof.
  intros w r. split; [repeat split|].
  destruct (data_takes_precedence_over_calibrate 0%nat w eq_refl eq_refl eq_refl eq_refl)
    as (Htx & _ & Hradar & _).
  split; [exact Htx|].
  exact (eq_trans (f_equal targets Hradar) eq_refl).
Defined.

(** C8, as stated, fails.  This buffer starts with neither pattern, and
    [GET /data] occurs in one of its headers: it is routed to the JSON
    response, which is not the HTML page. *)
Lemma header_mention_is_routed_to_json :
  let request := b Scripted.post_with_header in
  let w := Scripted.world binary32 [] [] [] (Scripted.peer Scripted.post_with_header) in
  startswith GET_data request = false
  /\ startswith GET_calibrate request = false
  /\ firstn 1024 (rx (sockets w 0%nat)) = request
  /\ result (run (route request) w) = inr (json_response [])
  /\ tx (sockets (final (run (handle_client 0%nat 0%nat) w)) 0%nat) = [json_response []]
  /\ json_response [] <> html_response.
Proof.
  intros request w.
  split; [reflexivity|]. split; [reflexivity|]. split; [reflexivity|].
  split; [reflexivity|]. split; [reflexivity|].
  discriminate.
Qed.

(** The sleep of [calibrate] is a suspension point.  Here a poll runs
    during it and finds a frame: when [calibrate] has returned and
    [handle_client] waits to write the acknowledgement, the driver tracks
    the target of that frame again, and the poll has published it. *)
Lemma poll_during_the_sleep_of_calibrate :
  let c := Scripted.peer "GET /calibrate HTTP/1.0" in
  exists s : System,
    steps [Accept c; Client 0; Poll; Client 0] (Scripted.started c) s
    /\ targets (radar (globals s)) = [Scripted.slot_empty; Scripted.slot_4m binary32]
    /\ last_targets (globals s) = [to_display binary32 (Scripted.slot_4m binary32)]
    /\ option_map pending_write (nth_error (clients s) 0) = Some (Some calibrated_response).
Proof.
  intros c. eexists. split.
  - eapply steps_cons; [apply step_accept|].
    eapply steps_cons; [apply step_client; reflexivity|].
    eapply steps_cons; [apply step_poll|].
    eapply steps_cons; [apply step_client; reflexivity|].
    apply steps_nil.
  - repeat split.
Qed.

(** *** More of them *)

(** 1024 bytes that hold no pattern, then [GET /data]: the page is
    served, and [GET /data] stays on the socket. *)
Lemma pattern_after_1024_bytes_is_not_seen :
  let padding := repeat "A"%byte 1024 in
  let w := mkWorld (mkRadar (Dev := Scripted.Script) [] []) []
             (fun _ => mkConn (padding ++ GET_data)%list None None [] false) in
  let r := run (handle_client 0%nat 0%nat) w in
  (rfault (sockets w 0%nat) = None /\ wfault (sockets w 0%nat) = None
   /\ rx (sockets w 0%nat) = (padding ++ GET_data)%list
   /\ List.length padding = 1024%nat)
  /\ contains GET_data (rx (sockets w 0%nat)) = true
  /\ tx (sockets (final r) 0%nat) = [html_response]
  /\ rx (sockets (final r) 0%nat) = GET_data.
Proof.
  intros padding w r.
  assert (Hlen : List.length padding = 1024%nat) by (vm_compute; reflexivity).
  split; [repeat split; exact Hlen|].
  split; [vm_compute; reflexivity|].
  destruct (only_the_first_1024_bytes_are_read 0%nat w padding GET_data
              eq_refl eq_refl eq_refl Hlen)
    as ((response & Hrouted & Htx) & Hrest & _).
  assert (Hpage : result (run (route padding) w) = inr html_response)
    by (vm_compute; reflexivity).
  rewrite Hpage in Hrouted. injection Hrouted as <-.
  split; [exact Htx | exact Hrest].
Defined.

(** The first eight bytes of [GET /data] alone are served the page. *)
Lemma eight_bytes_get_the_page :
  let w := Scripted.world binary32 [] [] [] (Scripted.peer "GET /dat") in
  (rfault (sockets w 0%nat) = None /\ wfault (sockets w 0%nat) = None
   /\ (List.length (rx (sockets w 0%nat)) < 9)%nat)
  /\ tx (sockets (final (run (handle_client 0%nat 0%nat) w)) 0%nat) = [html_response].
Proof.
  intros w.
  assert (Hlen : (List.length (rx (sockets w 0%nat)) < 9)%nat) by (simpl; lia).
  split; [repeat split; exact Hlen|].
  exact (proj1 (short_buffer_gets_the_page 0%nat w eq_refl eq_refl Hlen)).
Defined.

(** A calibration request on a socket whose writes fail with [EPIPE]
    (32): the driver is reset and nothing is written. *)
Lemma calibration_with_a_broken_pipe :
  let w := Scripted.world binary32 [Scripted.slot_4m binary32] [] []
             (mkConn (b "GET /calibrate HTTP/1.0") None (Some 32) [] false) in
  let r := run (handle_client 0%nat 0%nat) w in
  (rfault (sockets w 0%nat) = None /\ wfault (sockets w 0%nat) = Some 32
   /\ contains GET_data (firstn 1024 (rx (sockets w 0%nat))) = false
   /\ contains GET_calibrate (firstn 1024 (rx (sockets w 0%nat))) = true)
  /\ targets (radar w) = [Scripted.slot_4m binary32]
  /\ targets (radar (final r)) = []
  /\ tx (sockets (final r) 0%nat) = [].
Proof.
  intros w r. split; [repeat split|]. split; [reflexivity|].
  destruct (calibration_outlives_a_failed_write 0%nat w 32 eq_refl eq_refl eq_refl eq_refl)
    as (_ & Htargets & _ & Htx & _).
  split; [exact Htargets | exact Htx].
Defined.

(** A body that is cancelled in its sleep: [CancelledError] comes out and
    the stream is closed. *)
Lemma cancelled_in_the_sleep :
  let w := Scripted.world binary32 [] [] [] (Scripted.peer "GET / HTTP/1.0") in
  let body := bind (sleep 200) (fun _ => Raise CancelledError) in
  let g := run (try_finally
                  (try_except body (fun e => print ("Client error: " ++ str e)))
                  (aclose 0%nat)) w in
  (result (run body w) = inl CancelledError /\ is_Exception CancelledError = false)
  /\ result g = inl CancelledError
  /\ closed (sockets (final g) 0%nat) = true
  /\ printed (trace g) = [].
Proof.
  intros w body g. split; [split; reflexivity|].
  destruct (base_exception_passes_after_the_close 0%nat body w CancelledError
              eq_refl eq_refl)
    as (Hres & Hclosed & Hprinted & _).
  split; [exact Hres|]. split; [exact Hclosed | exact Hprinted].
Defined.

(** A poll, then a connection that asks for a calibration. *)
Lemma polled_then_accepted_reachable (c : Conn) :
  reachable (mkSystem (set_socket 0%nat c (globals (Scripted.polled c)))
                      [handle_client 0%nat 0%nat]).
Proof.
  exists (mkRadar [] [Some [Scripted.slot_empty; Scripted.slot_4m binary32]; None]).
  exists (fun _ => c). exists [Poll; Accept c].
  eapply steps_cons; [apply step_poll|].
  eapply steps_cons; [apply (step_accept (Scripted.polled c) c) | apply steps_nil].
Qed.

(** The first slice of that connection empties [radar.targets] and leaves
    the script of the driver where it was. *)
Lemma calibrating_client_spares_the_script :
  let c := Scripted.peer "GET /calibrate HTTP/1.0" in
  let s := mkSystem (set_socket 0%nat c (globals (Scripted.polled c)))
                    [handle_client 0%nat 0%nat] in
  let t := handle_client 0%nat 0%nat in
  let s' := mkSystem (snd (advance t (globals s)))
                     (replace 0 (fst (advance t (globals s))) (clients s)) in
  (reachable s /\ step (Client 0) s s')
  /\ targets (radar (globals s)) = [Scripted.slot_empty; Scripted.slot_4m binary32]
  /\ targets (radar (globals s')) = []
  /\ dev (radar (globals s')) = [None].
Proof.
  intros c s t s'.
  assert (Hs : reachable s) by apply polled_then_accepted_reachable.
  assert (Hstep : step (Client 0) s s') by (apply step_client; reflexivity).
  split; [split; assumption|]. split; [reflexivity|]. split; [reflexivity|].
  exact (eq_trans (proj1 (clients_spare_the_driver 0%nat s s' Hs Hstep)) eq_refl).
Defined.

(** ... and it leaves the socket of any other stream as it was. *)
Lemma calibrating_client_keeps_to_its_socket :
  let c := Scripted.peer "GET /calibrate HTTP/1.0" in
  let s := mkSystem (set_socket 0%nat c (globals (Scripted.polled c)))
                    [handle_client 0%nat 0%nat] in
  let t := handle_client 0%nat 0%nat in
  let s' := mkSystem (snd (advance t (globals s)))
                     (replace 0 (fst (advance t (globals s))) (clients s)) in
  (reachable s /\ step (Client 0) s s' /\ 1%nat <> 0%nat)
  /\ rx (sockets (globals s') 0%nat) = []
  /\ sockets (globals s') 1%nat = c.
Proof.
  intros c s t s'.
  assert (Hs : reachable s) by apply polled_then_accepted_reachable.
  assert (Hstep : step (Client 0) s s') by (apply step_client; reflexivity).
  assert (Hother : 1%nat <> 0%nat) by discriminate.
  split; [repeat split; assumption|]. split; [reflexivity|].
  exact (eq_trans
           (proj1 (proj1 connections_are_isolated 0%nat s s' Hs Hstep) 1%nat Hother)
           eq_refl).
Defined.

(** After the first poll the snapshot holds the display of the one slot
    with a target. *)
Lemma polled_snapshot_comes_from_a_target :
  let s := Scripted.polled (Scripted.peer "GET /data") in
  reachable s
  /\ last_targets (globals s) = [to_display binary32 (Scripted.slot_4m binary32)]
  /\ exists t, 0 < Target.distance t
               /\ to_display binary32 (Scripted.slot_4m binary32) = to_display binary32 t.
Proof.
  intros s.
  assert (Hs : reachable s) by apply polled_reachable.
  split; [exact Hs|]. split; [reflexivity|].
  exact (proj2 (every_snapshot_is_the_image_of_a_frame s Hs)
           (to_display binary32 (Scripted.slot_4m binary32)) (or_introl eq_refl)).
Defined.

(** Three polls over a script with one frame and then none: the frame of
    the first poll is still the snapshot. *)
Lemma one_frame_then_silence :
  let w := globals (Scripted.started (Scripted.peer "GET /data")) in
  ((0 < 3)%nat
   /\ fst (update (radar (polls 0 w))) = true
   /\ forall j, (0 < j < 3)%nat -> fst (update (radar (polls j w))) = false)
  /\ last_targets (polls 3 w) = [to_display binary32 (Scripted.slot_4m binary32)].
Proof.
  intros w.
  assert (Hfresh : fst (update (radar (polls 0 w))) = true) by reflexivity.
  assert (Hstale : forall j, (0 < j < 3)%nat -> fst (update (radar (polls j w))) = false).
  { intros j Hj. assert (Hcases : j = 1%nat \/ j = 2%nat) by lia.
    destruct Hcases as [-> | ->]; reflexivity. }
  split; [split; [lia | split; assumption]|].
  exact (eq_trans
           (proj2 (proj2 (latest_frame_wins 3 w)) 0%nat ltac:(lia) Hfresh Hstale)
           eq_refl).
Defined.

(** A frame arrives during the sleep of [calibrate]. *)
Lemma frame_in_the_sleep :
  let w := Scripted.world binary32 [Scripted.slot_4m binary32]
             [Some [Scripted.slot_4m binary32]] []
             (Scripted.peer "GET /calibrate HTTP/1.0") in
  let w1 := snd (atomic calibrate w) in
  let w2 := snd (atomic sensor_task_iteration w1) in
  let w3 := snd (advance (fst (atomic calibrate w)) w2) in
  fst (update (radar w1)) = true
  /\ targets (radar w1) = []
  /\ targets (radar w3) = [Scripted.slot_4m binary32]
  /\ last_targets w3 = [to_display binary32 (Scripted.slot_4m binary32)].
Proof.
  intros w w1 w2 w3.
  assert (Hfresh : fst (update (radar w1)) = true) by reflexivity.
  split; [exact Hfresh|].
  destruct (poll_in_the_sleep_undoes_the_reset w Hfresh)
    as (Hcleared & _ & Htargets & Hpublished).
  split; [exact Hcleared|].
  split; [exact (eq_trans Htargets eq_refl) | exact (eq_trans Hpublished eq_refl)].
Defined.


(** A target 5 mm away. *)
Lemma target_at_5_mm :
  0 < 5 <= 5
  /\ has_target (Target.Make 5 (S754_zero false) 0) = true
  /\ DisplayTarget.range (to_display binary32 (Target.Make 5 (S754_zero false) 0))
     = S754_zero false.
Proof.
  assert (Hd : 0 < 5 <= 5) by lia.
  split; [exact Hd|].
  destruct (near_targets_display_range_zero 5 (S754_zero false) 0 Hd) as (Hkept & H32 & _).
  split; [exact Hkept | exact H32].
Defined.

(** A link that comes up at the fourth check: three sleeps. *)
Lemma link_up_at_the_fourth_check :
  let isconnected := fun k : nat => (3 <=? k)%nat in
  ((3 < 10)%nat /\ isconnected 3%nat = true
   /\ forall j, (j < 3)%nat -> isconnected j = false)
  /\ WiFi.wait isconnected 0 10 = Some 3%nat.
Proof.
  intros isconnected.
  assert (Hfirst : forall j, (j < 3)%nat -> isconnected j = false).
  { intros j Hj. subst isconnected. apply Nat.leb_gt. exact Hj. }
  split; [split; [lia | split; [reflexivity | exact Hfirst]]|].
  apply (proj1 (start_up_waits_for_the_link isconnected)).
  split; [lia | split; [reflexivity | exact Hfirst]].
Defined.

(** A reply with the legacy field [target] only, and a fetch that fails. *)
Lemma replies_without_targets :
  let st := Page.mkState (Page.Arr [Page.Null]) [] [] in
  let legacy := Page.Obj [("target", Page.Obj [("range", Page.Num (decimal binary64 25 1))])] in
  (Page.field "targets" [("targets", Page.Arr [])] = Page.Arr []
   /\ inl Page.FetchFailed = inl (B := Page.value) Page.FetchFailed)
  /\ Page.targets (Page.fetchData (inr (Page.Obj [("targets", Page.Arr [])])) st)
     = Page.Arr []
  /\ Page.targets (Page.fetchData (inl Page.FetchFailed) st) = Page.Arr []
  /\ Page.isArray (Page.targets (Page.fetchData (inr legacy) st)) = true.
Proof.
  intros st legacy. split; [split; reflexivity|].
  destruct (fetchData_leaves_an_array_and_rearms
              (inr (Page.Obj [("targets", Page.Arr [])])) st)
    as (_ & _ & _ & _ & Hobj & _).
  destruct (fetchData_leaves_an_array_and_rearms (inl Page.FetchFailed) st)
    as (_ & _ & Hfail & _).
  destruct (fetchData_leaves_an_array_and_rearms (inr legacy) st) as (Harray & _).
  split; [exact (proj1 (Hobj _ _ eq_refl eq_refl))|].
  split; [exact (proj1 (Hfail _ eq_refl)) | exact Harray].
Defined.

